(** * golog: the dispatch engine of [logger.go]

    A shallow embedding of [vendor/github.com/kataras/golog/logger.go]:
    level filtering, the pooled log records, the handler chain, the text
    formatter installed on the printer, cloning and the registry of child
    loggers.

    Go pointers are locations of a store ([World]); a method with a pointer
    receiver takes the receiver's location.  Code that can panic or block
    returns a [Result].  What the file calls but does not define (the
    printer of [pio], [fmt], [time], [sync.Pool]'s choice of an idle item)
    is either a parameter of the model or an event of the [trace]. *)

From Stdlib Require Import ZArith NArith Strings.String Strings.Ascii Strings.Byte.
From stdpp Require Import base gmap strings list.

Open Scope string_scope.

(** ** Data *)

Definition loc := positive.

(** Modelled from the spec: the type [Level] and its named tiers are declared
    in [level.go], which is not among the sources.  The spec gives an ordered
    integer severity with the tiers Disabled < Error < Warn < Info < Debug,
    Disabled being the level-less tier; they are the unsigned values 0 to 4. *)
Definition Level := N.
Definition DisableLevel : Level := 0%N.
Definition ErrorLevel : Level := 1%N.
Definition WarnLevel : Level := 2%N.
Definition InfoLevel : Level := 3%N.
Definition DebugLevel : Level := 4%N.

(** [time.Time]: an instant. *)
Definition time_Time := Z.

(** Modelled from the spec: the struct [Log] is declared in [log.go], which is
    not among the sources.  A record holds its owning Logger (a pointer back,
    not ownership), the severity, the message text, the creation time and the
    flag that tells newline-terminated emission from inline emission. *)
Record Log := {
  Log_Logger : loc;
  Log_Time : time_Time;
  Log_Level : Level;
  Log_Message : string;
  Log_NewLine : bool }.

(** A Go slice header; the elements live in an array of the store. *)
Record slice := {
  slice_array : loc;
  slice_len : nat;
  slice_cap : nat }.

(** [type Logger struct].  [mu] is true while the mutex is held, [once] is
    true after the one-shot initialisation has run, [logs] is the idle set of
    the record pool. *)
Record Logger := {
  Prefix : list byte;
  Logger_Level : Level;
  TimeFormat : string;
  mu : bool;
  Printer : loc;
  handlers : slice;
  once : bool;
  logs : list Log;
  children : loc }.

(** [sync.RWMutex]. *)
Record RWMutex := {
  readers : nat;
  writer : bool }.

(** [type loggerMap struct]. *)
Record loggerMap := {
  loggerMap_mu : RWMutex;
  Items : gmap string loc }.

(** What a call does to the record pool, to the handlers and to the printer,
    in the order it does it. *)
Inductive Event :=
  | PoolGet (l : loc) (got : option Log)
  | PoolPut (l : loc) (log : Log)
  | HandlerCall (i : nat) (log : Log)
  | PrinterPrint (p : loc) (log : Log)
  | PrinterPrintln (p : loc) (log : Log).

Inductive Fault :=
  | NilDereference
  | IndexOutOfRange
  | Blocked.

Definition is_PoolPut (e : Event) : bool :=
  match e with PoolPut _ _ => true | _ => false end.

Definition is_HandlerCall (e : Event) : bool :=
  match e with HandlerCall _ _ => true | _ => false end.

Definition is_sink (e : Event) : bool :=
  match e with PrinterPrint _ _ | PrinterPrintln _ _ => true | _ => false end.

Reserved Notation "x ⇐ m ; k" (at level 20, m at level 100, k at level 200).
Reserved Notation "m ;;; k" (at level 100, k at level 200, right associativity).

Section Model.

(** The state of whatever the handlers act on (another logger, a file). *)
Context {W : Type}.

(** [type Handler func(value *Log) (handled bool)].  Here a handler reads
    the record it is given and acts on the outside.  A handler that also
    assigns to the fields of the record, which the pointer allows, is the
    subject of [handled_by] and [print_by] further down; for handlers that
    only read, the two readings agree ([print_by_reading]). *)
Definition Handler : Type := Log → W → bool * W.

Record World := {
  loggers : gmap loc Logger;
  loggerMaps : gmap loc loggerMap;
  arrays : gmap loc (list Handler);
  clock : time_Time;
  poolChoices : list (option nat);
  outside : W;
  trace : list Event }.

Inductive Result (A : Type) :=
  | Ok (a : A) (w : World)
  | Fail (f : Fault) (w : World).
Global Arguments Ok {A} a w.
Global Arguments Fail {A} f w.

Definition M (A : Type) : Type := World → Result A.

Definition ret {A} (a : A) : M A := λ w, Ok a w.
Definition bind {A B} (m : M A) (k : A → M B) : M B := λ w,
  match m w with
  | Ok a w' => k a w'
  | Fail f w' => Fail f w'
  end.

Notation "x ⇐ m ; k" := (bind m (λ x, k)) (only parsing).
Notation "m ;;; k" := (bind m (λ _, k)) (only parsing).

Definition fail {A} (f : Fault) : M A := λ w, Fail f w.
Definition get_world : M World := λ w, Ok w w.
Definition put_world (w' : World) : M unit := λ _, Ok tt w'.

Definition set_loggers (f : gmap loc Logger → gmap loc Logger) (w : World) : World :=
  {| loggers := f (loggers w); loggerMaps := loggerMaps w; arrays := arrays w;
     clock := clock w; poolChoices := poolChoices w; outside := outside w;
     trace := trace w |}.

Definition set_loggerMaps (f : gmap loc loggerMap → gmap loc loggerMap) (w : World) : World :=
  {| loggers := loggers w; loggerMaps := f (loggerMaps w); arrays := arrays w;
     clock := clock w; poolChoices := poolChoices w; outside := outside w;
     trace := trace w |}.

Definition set_poolChoices (cs : list (option nat)) (w : World) : World :=
  {| loggers := loggers w; loggerMaps := loggerMaps w; arrays := arrays w;
     clock := clock w; poolChoices := cs; outside := outside w;
     trace := trace w |}.

Definition set_outside (o : W) (w : World) : World :=
  {| loggers := loggers w; loggerMaps := loggerMaps w; arrays := arrays w;
     clock := clock w; poolChoices := poolChoices w; outside := o;
     trace := trace w |}.

Definition emit (e : Event) : M unit := λ w,
  Ok tt {| loggers := loggers w; loggerMaps := loggerMaps w; arrays := arrays w;
           clock := clock w; poolChoices := poolChoices w; outside := outside w;
           trace := (trace w ++ [e])%list |}.

(** Reading through a [*Logger]; a dangling or nil pointer panics. *)
Definition deref (l : loc) : M Logger := λ w,
  match loggers w !! l with
  | Some lg => Ok lg w
  | None => Fail NilDereference w
  end.

Definition store (l : loc) (lg : Logger) : M unit := λ w,
  Ok tt (set_loggers <[l := lg]> w).

Definition deref_map (m : loc) : M loggerMap := λ w,
  match loggerMaps w !! m with
  | Some lm => Ok lm w
  | None => Fail NilDereference w
  end.

Definition store_map (m : loc) (lm : loggerMap) : M unit := λ w,
  Ok tt (set_loggerMaps <[m := lm]> w).

(** The visible elements of a slice of handlers. *)
Definition slice_elems (w : World) (s : slice) : list Handler :=
  take (slice_len s) (default [] (arrays w !! slice_array s)).

(** [time.Now()]. *)
Definition time_Now : M time_Time := λ w, Ok (clock w) w.

(** ** The record pool *)

Definition with_logs (lg : Logger) (p : list Log) : Logger :=
  {| Prefix := Prefix lg; Logger_Level := Logger_Level lg;
     TimeFormat := TimeFormat lg; mu := mu lg; Printer := Printer lg;
     handlers := handlers lg; once := once lg; logs := p;
     children := children lg |}.

(** [l.logs.Get()]: [sync.Pool] hands out any idle item, or none although
    some are idle.  The next entry of [poolChoices] decides: the item at that
    index of the idle set, or nothing (no [New] function is set, so nothing
    is the nil interface). *)
Definition Pool_Get (l : loc) : M (option Log) :=
  lg ⇐ deref l;
  w ⇐ get_world;
  let choice := match poolChoices w with c :: _ => c | [] => None end in
  put_world (set_poolChoices (tail (poolChoices w)) w);;;
  match choice with
  | Some i =>
      match logs lg !! i with
      | Some x =>
          store l (with_logs lg (delete i (logs lg)));;;
          emit (PoolGet l (Some x));;;
          ret (Some x)
      | None =>
          emit (PoolGet l None);;;
          ret None
      end
  | None =>
      emit (PoolGet l None);;;
      ret None
  end.

(** [l.logs.Put(log)].  The model keeps every record put back; [sync.Pool]
    may also drop idle records at any time. *)
Definition Pool_Put (l : loc) (log : Log) : M unit :=
  lg ⇐ deref l;
  store l (with_logs lg (log :: logs lg));;;
  emit (PoolPut l log).

Definition set_NewLine (b : bool) (log : Log) : Log :=
  {| Log_Logger := Log_Logger log; Log_Time := Log_Time log;
     Log_Level := Log_Level log; Log_Message := Log_Message log;
     Log_NewLine := b |}.

Definition set_Time (t : time_Time) (log : Log) : Log :=
  {| Log_Logger := Log_Logger log; Log_Time := t;
     Log_Level := Log_Level log; Log_Message := Log_Message log;
     Log_NewLine := Log_NewLine log |}.

Definition set_Level (v : Level) (log : Log) : Log :=
  {| Log_Logger := Log_Logger log; Log_Time := Log_Time log;
     Log_Level := v; Log_Message := Log_Message log;
     Log_NewLine := Log_NewLine log |}.

Definition set_Message (s : string) (log : Log) : Log :=
  {| Log_Logger := Log_Logger log; Log_Time := Log_Time log;
     Log_Level := Log_Level log; Log_Message := s;
     Log_NewLine := Log_NewLine log |}.

(** [&Log{Logger: l}]: every other field has its zero value. *)
Definition new_Log (l : loc) : Log :=
  {| Log_Logger := l; Log_Time := 0%Z; Log_Level := 0%N;
     Log_Message := ""; Log_NewLine := false |}.

(** [func (l *Logger) acquireLog(level Level, msg string, withPrintln bool) *Log] *)
Definition acquireLog (l : loc) (level : Level) (msg : string)
    (withPrintln : bool) : M Log :=
  got ⇐ Pool_Get l;
  let log := match got with Some log => log | None => new_Log l end in
  let log := set_NewLine withPrintln log in
  now ⇐ time_Now;
  let log := set_Time now log in
  let log := set_Level level log in
  let log := set_Message msg log in
  ret log.

(** [func (l *Logger) releaseLog(log *Log)] *)
Definition releaseLog (l : loc) (log : Log) : M unit :=
  Pool_Put l log.

(** ** The handler chain *)

(** One call [h(value)], the [i]-th of the chain. *)
Definition call_handler (i : nat) (h : Handler) (value : Log) : M bool :=
  emit (HandlerCall i value);;;
  w ⇐ get_world;
  let '(b, o) := h value (outside w) in
  put_world (set_outside o w);;;
  ret b.

(** The loop [for _, h := range l.handlers], from index [i] on. *)
Fixpoint handled_loop (i : nat) (hs : list Handler) (value : Log) : M bool :=
  match hs with
  | [] => ret false
  | h :: rest =>
      b ⇐ call_handler i h value;
      if b then ret true else handled_loop (S i) rest value
  end.

(** [func (l *Logger) handled(value *Log) (handled bool)] *)
Definition handled (l : loc) (value : Log) : M bool :=
  lg ⇐ deref l;
  w ⇐ get_world;
  handled_loop 0 (slice_elems w (handlers lg)) value.

(** ** The printer: [l.Printer.Print(log)] and [l.Printer.Println(log)] are
    calls into [pio]; the model records them. *)
Definition Printer_Print (p : loc) (log : Log) : M unit :=
  emit (PrinterPrint p log).

Definition Printer_Println (p : loc) (log : Log) : M unit :=
  emit (PrinterPrintln p log).

(** [func (l *Logger) print(level Level, msg string, newLine bool)] *)
Definition print (l : loc) (level : Level) (msg : string) (newLine : bool) : M unit :=
  lg ⇐ deref l;
  if (level <=? Logger_Level lg)%N then
    log ⇐ acquireLog l level msg newLine;
    h ⇐ handled l log;
    (if negb h then
       lg' ⇐ deref l;
       if newLine then Printer_Println (Printer lg') log
       else Printer_Print (Printer lg') log
     else ret tt);;;
    releaseLog l log
  else ret tt.

(** ** The public print methods *)

(** [interface{}], with [fmt.Sprint] and [fmt.Sprintf]; [any_of_string] is
    a string passed where an [interface{}] is expected. *)
Context {any : Type}.
Context (Sprint : list any → string).
Context (Sprintf : string → list any → string).
Context (any_of_string : string → any).

(** [func (l *Logger) Print(v ...interface{})] *)
Definition Print (l : loc) (v : list any) : M unit :=
  print l DisableLevel (Sprint v) false.

(** [func (l *Logger) Println(v ...interface{})] *)
Definition Println (l : loc) (v : list any) : M unit :=
  print l DisableLevel (Sprint v) true.

(** [func (l *Logger) Log(level Level, v ...interface{})]; the name [Log] is
    the record's. *)
Definition Log_ (l : loc) (level : Level) (v : list any) : M unit :=
  print l level (Sprint v) true.

(** [func (l *Logger) Logf(level Level, format string, args ...interface{})] *)
Definition Logf (l : loc) (level : Level) (format : string) (args : list any) : M unit :=
  let msg := Sprintf format args in
  Log_ l level [any_of_string msg].

(** [func (l *Logger) Error(v ...interface{})] *)
Definition Error (l : loc) (v : list any) : M unit :=
  Log_ l ErrorLevel v.

(** [func (l *Logger) Errorf(format string, args ...interface{})] *)
Definition Errorf (l : loc) (format : string) (args : list any) : M unit :=
  let msg := Sprintf format args in
  Error l [any_of_string msg].

(** [func (l *Logger) Warn(v ...interface{})] *)
Definition Warn (l : loc) (v : list any) : M unit :=
  Log_ l WarnLevel v.

(** [func (l *Logger) Warnf(format string, args ...interface{})] *)
Definition Warnf (l : loc) (format : string) (args : list any) : M unit :=
  let msg := Sprintf format args in
  Warn l [any_of_string msg].

(** [func (l *Logger) Info(v ...interface{})] *)
Definition Info (l : loc) (v : list any) : M unit :=
  Log_ l InfoLevel v.

(** [func (l *Logger) Infof(format string, args ...interface{})] *)
Definition Infof (l : loc) (format : string) (args : list any) : M unit :=
  let msg := Sprintf format args in
  Info l [any_of_string msg].

(** [func (l *Logger) Debug(v ...interface{})] *)
Definition Debug (l : loc) (v : list any) : M unit :=
  Log_ l DebugLevel v.

(** [func (l *Logger) Debugf(format string, args ...interface{})] *)
Definition Debugf (l : loc) (format : string) (args : list any) : M unit :=
  let msg := Sprintf format args in
  Debug l [any_of_string msg].

(** ** The formatter *)

(** [time.Time.Format], and the styling [pio] gives a level tag on a
    terminal. *)
Context (time_Format : time_Time → string → string).
Context (colorful : Level → string → string).

(** Modelled from the spec: the tag table of [level.go] is not among the
    sources.  [textFor(level, colorCapable)] yields the short tag ERRO, WARN,
    INFO or DBUG, and the empty tag for the level-less tier. *)
Definition RawText (level : Level) : string :=
  match level with
  | 1%N => "ERRO"
  | 2%N => "WARN"
  | 3%N => "INFO"
  | 4%N => "DBUG"
  | _ => ""
  end.

(** Modelled from the spec: [GetTextForLevel] is defined in [level.go], not
    among the sources.  The tag is styled when the destination is
    color-capable; the level-less tier (and a level without a tag) yields the
    empty tag either way. *)
Definition GetTextForLevel (level : Level) (enableColor : bool) : string :=
  let raw := RawText level in
  if decide (raw = "") then ""
  else if enableColor then colorful level raw else raw.

(** Modelled from the spec: [Log.FormatTime] is defined in [log.go], not
    among the sources.  The timestamp is omitted when the owning Logger's
    TimeFormat is empty, else it is the record's time in that format. *)
Definition FormatTime (l : Log) : M string :=
  lg ⇐ deref (Log_Logger l);
  if decide (TimeFormat lg = "") then ret ""
  else ret (time_Format (Log_Time l) (TimeFormat lg)).

(** [ctx.Value], an [interface{}]: a [*Log] or something else. *)
Inductive CtxValue :=
  | ValueLog (l : Log)
  | ValueOther (v : any).

(** [var logHijacker = func(ctx *pio.Ctx)], given [ctx.Value] and
    [ctx.Printer.IsTerminal].  [Some b] is [ctx.Store(b, nil)]; [None] is
    the context passed on untouched. *)
Definition logHijacker (value : CtxValue) (isTerminal : bool) : M (option (list byte)) :=
  match value with
  | ValueOther _ => ret None
  | ValueLog l =>
      let line := GetTextForLevel (Log_Level l) isTerminal in
      let line := if decide (line ≠ "") then line ++ " " else line in
      t ⇐ FormatTime l;
      let line := if decide (t ≠ "") then line ++ (t ++ " ") else line in
      let line := line ++ Log_Message l in
      lg ⇐ deref (Log_Logger l);
      let pref := Prefix lg in
      let b := if decide (0 < List.length pref)%nat
               then (pref ++ list_byte_of_string line)%list
               else list_byte_of_string line in
      ret (Some b)
  end.

(** ** Configuration *)

Definition with_mu (lg : Logger) (b : bool) : Logger :=
  {| Prefix := Prefix lg; Logger_Level := Logger_Level lg;
     TimeFormat := TimeFormat lg; mu := b; Printer := Printer lg;
     handlers := handlers lg; once := once lg; logs := logs lg;
     children := children lg |}.

Definition with_Prefix (lg : Logger) (p : list byte) : Logger :=
  {| Prefix := p; Logger_Level := Logger_Level lg;
     TimeFormat := TimeFormat lg; mu := mu lg; Printer := Printer lg;
     handlers := handlers lg; once := once lg; logs := logs lg;
     children := children lg |}.

Definition with_TimeFormat (lg : Logger) (s : string) : Logger :=
  {| Prefix := Prefix lg; Logger_Level := Logger_Level lg;
     TimeFormat := s; mu := mu lg; Printer := Printer lg;
     handlers := handlers lg; once := once lg; logs := logs lg;
     children := children lg |}.

(** [l.mu.Lock()]: a held mutex makes the caller wait. *)
Definition Mutex_Lock (l : loc) : M unit :=
  lg ⇐ deref l;
  if mu lg then fail Blocked else store l (with_mu lg true).

(** [l.mu.Unlock()]. *)
Definition Mutex_Unlock (l : loc) : M unit :=
  lg ⇐ deref l;
  store l (with_mu lg false).

(** [func (l *Logger) SetPrefix(s string) *Logger] *)
Definition SetPrefix (l : loc) (s : string) : M loc :=
  Mutex_Lock l;;;
  lg ⇐ deref l;
  store l (with_Prefix lg (list_byte_of_string s));;;
  Mutex_Unlock l;;;
  ret l.

(** [func (l *Logger) SetTimeFormat(s string)] *)
Definition SetTimeFormat (l : loc) (s : string) : M unit :=
  Mutex_Lock l;;;
  lg ⇐ deref l;
  store l (with_TimeFormat lg s);;;
  Mutex_Unlock l.

(** ** Cloning and the registry of children *)

Definition alloc_Logger (lg : Logger) : M loc := λ w,
  let l := fresh (dom (loggers w)) in
  Ok l (set_loggers <[l := lg]> w).

Definition alloc_loggerMap (lm : loggerMap) : M loc := λ w,
  let m := fresh (dom (loggerMaps w)) in
  Ok m (set_loggerMaps <[m := lm]> w).

(** [func newLoggerMap() *loggerMap] *)
Definition newLoggerMap : M loc :=
  alloc_loggerMap {| loggerMap_mu := {| readers := 0; writer := false |};
                     Items := ∅ |}.

(** [func (l *Logger) Clone() *Logger].  [sync.Mutex{}] is a free mutex,
    [sync.Once{}] has not run, and [logs], left out of the literal, is an
    empty pool. *)
Definition Clone (l : loc) : M loc :=
  lg ⇐ deref l;
  c ⇐ newLoggerMap;
  alloc_Logger {| Prefix := Prefix lg;
                  Logger_Level := Logger_Level lg;
                  TimeFormat := TimeFormat lg;
                  Printer := Printer lg;
                  handlers := handlers lg;
                  children := c;
                  mu := false;
                  once := false;
                  logs := [] |}.

Definition with_loggerMap_mu (lm : loggerMap) (rw : RWMutex) : loggerMap :=
  {| loggerMap_mu := rw; Items := Items lm |}.

(** [m.mu.RLock()]: waits while a writer holds the lock. *)
Definition RWMutex_RLock (m : loc) : M unit :=
  lm ⇐ deref_map m;
  let rw := loggerMap_mu lm in
  if writer rw then fail Blocked
  else store_map m (with_loggerMap_mu lm {| readers := S (readers rw); writer := false |}).

(** [m.mu.RUnlock()]. *)
Definition RWMutex_RUnlock (m : loc) : M unit :=
  lm ⇐ deref_map m;
  let rw := loggerMap_mu lm in
  store_map m (with_loggerMap_mu lm {| readers := pred (readers rw); writer := writer rw |}).

(** [m.mu.Lock()]: waits while a writer or a reader holds the lock. *)
Definition RWMutex_Lock (m : loc) : M unit :=
  lm ⇐ deref_map m;
  let rw := loggerMap_mu lm in
  if writer rw || negb (readers rw =? 0)%nat then fail Blocked
  else store_map m (with_loggerMap_mu lm {| readers := readers rw; writer := true |}).

(** [m.mu.Unlock()]. *)
Definition RWMutex_Unlock (m : loc) : M unit :=
  lm ⇐ deref_map m;
  let rw := loggerMap_mu lm in
  store_map m (with_loggerMap_mu lm {| readers := readers rw; writer := false |}).

(** [logger, ok := m.Items[name]] *)
Definition Items_lookup (m : loc) (name : string) : M (option loc) :=
  lm ⇐ deref_map m;
  ret (Items lm !! name).

(** [m.Items[name] = logger] *)
Definition Items_insert (m : loc) (name : string) (logger : loc) : M unit :=
  lm ⇐ deref_map m;
  store_map m {| loggerMap_mu := loggerMap_mu lm;
                 Items := <[name := logger]> (Items lm) |}.

(** [s[i]] on a string: the byte at [i], a panic out of range. *)
Definition string_index (s : string) (i : Z) : M ascii :=
  if decide (0 ≤ i < Z.of_nat (String.length s))%Z then
    match String.get (Z.to_nat i) s with
    | Some c => ret c
    | None => fail IndexOutOfRange
    end
  else fail IndexOutOfRange.

(** The prefix of a child called [name]:
    [prefix := name; if lb := name[len(prefix)-1]; lb != ' ' { prefix += ": " }]. *)
Definition child_prefix (name : string) : M string :=
  let prefix := name in
  lb ⇐ string_index name (Z.of_nat (String.length prefix) - 1);
  if decide (lb ≠ " "%char) then ret (prefix ++ ": ") else ret prefix.

(** [func (m *loggerMap) getOrAdd(name string, parent *Logger) *Logger] *)
Definition getOrAdd (m : loc) (name : string) (parent : loc) : M loc :=
  RWMutex_RLock m;;;
  r ⇐ Items_lookup m name;
  RWMutex_RUnlock m;;;
  match r with
  | Some logger => ret logger
  | None =>
      logger ⇐ Clone parent;
      prefix ⇐ child_prefix name;
      SetPrefix logger prefix;;;
      RWMutex_Lock m;;;
      Items_insert m name logger;;;
      RWMutex_Unlock m;;;
      ret logger
  end.

(** [func (l *Logger) Child(name string) *Logger] *)
Definition Child (l : loc) (name : string) : M loc :=
  lg ⇐ deref l;
  getOrAdd (children lg) name l.

(** ** Goroutines in [getOrAdd]

    The same body, cut at its statements: a goroutine is at one of them, and
    a schedule says which goroutine takes the next step.  A goroutine that
    meets a held lock stays where it is. *)

Inductive getOrAdd_pc :=
  | AtRLock
  | AtLookup
  | AtRUnlock (r : option loc)
  | AtClone
  | AtPrefix (logger : loc)
  | AtSetPrefix (logger : loc) (prefix : string)
  | AtLock (logger : loc)
  | AtInsert (logger : loc)
  | AtUnlock (logger : loc)
  | Returned (logger : loc).

Definition getOrAdd_step (m : loc) (name : string) (parent : loc)
    (pc : getOrAdd_pc) : M getOrAdd_pc :=
  match pc with
  | AtRLock => RWMutex_RLock m;;; ret AtLookup
  | AtLookup => r ⇐ Items_lookup m name; ret (AtRUnlock r)
  | AtRUnlock r =>
      RWMutex_RUnlock m;;;
      match r with
      | Some logger => ret (Returned logger)
      | None => ret AtClone
      end
  | AtClone => logger ⇐ Clone parent; ret (AtPrefix logger)
  | AtPrefix logger => prefix ⇐ child_prefix name; ret (AtSetPrefix logger prefix)
  | AtSetPrefix logger prefix => SetPrefix logger prefix;;; ret (AtLock logger)
  | AtLock logger => RWMutex_Lock m;;; ret (AtInsert logger)
  | AtInsert logger => Items_insert m name logger;;; ret (AtUnlock logger)
  | AtUnlock logger => RWMutex_Unlock m;;; ret (Returned logger)
  | Returned logger => ret (Returned logger)
  end.

(** [n] steps of one goroutine on its own. *)
Fixpoint getOrAdd_steps (n : nat) (m : loc) (name : string) (parent : loc)
    (pc : getOrAdd_pc) : M getOrAdd_pc :=
  match n with
  | 0 => ret pc
  | S n => pc' ⇐ getOrAdd_step m name parent pc; getOrAdd_steps n m name parent pc'
  end.

(** A goroutine inside [m.getOrAdd(name, parent)]. *)
Record Goroutine := {
  g_map : loc;
  g_name : string;
  g_parent : loc;
  g_at : getOrAdd_pc + Fault }.

Definition go_getOrAdd (m : loc) (name : string) (parent : loc) : Goroutine :=
  {| g_map := m; g_name := name; g_parent := parent; g_at := inl AtRLock |}.

Definition g_result (g : Goroutine) : option loc :=
  match g_at g with
  | inl (Returned logger) => Some logger
  | _ => None
  end.

(** Goroutine [i] takes one step. *)
Definition sched_step (i : nat) (cfg : list Goroutine * World) : list Goroutine * World :=
  let '(gs, w) := cfg in
  match gs !! i with
  | Some g =>
      match g_at g with
      | inl pc =>
          match getOrAdd_step (g_map g) (g_name g) (g_parent g) pc w with
          | Ok pc' w' =>
              (<[i := {| g_map := g_map g; g_name := g_name g;
                         g_parent := g_parent g; g_at := inl pc' |}]> gs, w')
          | Fail Blocked _ => (gs, w)
          | Fail f w' =>
              (<[i := {| g_map := g_map g; g_name := g_name g;
                         g_parent := g_parent g; g_at := inr f |}]> gs, w')
          end
      | inr _ => (gs, w)
      end
  | None => (gs, w)
  end.

Definition run_schedule (sched : list nat) (cfg : list Goroutine * World)
    : list Goroutine * World :=
  foldl (λ c i, sched_step i c) cfg sched.

(** ** The rest of the configuration: [Handle], [SetLevel], [New] *)

Definition set_arrays (f : gmap loc (list Handler) → gmap loc (list Handler))
    (w : World) : World :=
  {| loggers := loggers w; loggerMaps := loggerMaps w; arrays := f (arrays w);
     clock := clock w; poolChoices := poolChoices w; outside := outside w;
     trace := trace w |}.

Definition with_handlers (lg : Logger) (s : slice) : Logger :=
  {| Prefix := Prefix lg; Logger_Level := Logger_Level lg;
     TimeFormat := TimeFormat lg; mu := mu lg; Printer := Printer lg;
     handlers := s; once := once lg; logs := logs lg;
     children := children lg |}.

Definition with_Level (lg : Logger) (v : Level) : Logger :=
  {| Prefix := Prefix lg; Logger_Level := v;
     TimeFormat := TimeFormat lg; mu := mu lg; Printer := Printer lg;
     handlers := handlers lg; once := once lg; logs := logs lg;
     children := children lg |}.

(** The capacity the runtime gives the new array when [append] has to grow
    one of capacity [c]; it is at least what the elements need. *)
Context (growslice : nat → nat).

(** [append(s, h)] on a slice of handlers.  With room left the element is
    written into the underlying array, at index [len(s)]; without, a new array
    is allocated and the elements are copied. *)
Definition slice_append (s : slice) (h : Handler) : M slice :=
  w ⇐ get_world;
  if decide (slice_len s < slice_cap s)%nat then
    let a := default [] (arrays w !! slice_array s) in
    put_world
      (set_arrays
         <[slice_array s := (take (slice_len s) a ++ h :: drop (S (slice_len s)) a)%list]>
         w);;;
    ret {| slice_array := slice_array s; slice_len := S (slice_len s);
           slice_cap := slice_cap s |}
  else
    let a' := fresh (dom (arrays w)) in
    put_world (set_arrays <[a' := (slice_elems w s ++ [h])%list]> w);;;
    ret {| slice_array := a'; slice_len := S (slice_len s);
           slice_cap := max (S (slice_len s)) (growslice (slice_cap s)) |}.

(** [func (l *Logger) Handle(handler Handler)] *)
Definition Handle (l : loc) (handler : Handler) : M unit :=
  Mutex_Lock l;;;
  lg ⇐ deref l;
  s ⇐ slice_append (handlers lg) handler;
  store l (with_handlers lg s);;;
  Mutex_Unlock l.

(** [fromLevelName] is defined in [level.go], not among the sources. *)
Context (fromLevelName : string → Level).

(** [func (l *Logger) SetLevel(levelName string)] *)
Definition SetLevel (l : loc) (levelName : string) : M unit :=
  Mutex_Lock l;;;
  lg ⇐ deref l;
  store l (with_Level lg (fromLevelName levelName));;;
  Mutex_Unlock l.

(** The nil slice: no array, length and capacity 0. *)
Definition nil_slice : slice :=
  {| slice_array := 1%positive; slice_len := 0; slice_cap := 0 |}.

(** [func New() *Logger], given the printer that [pio.NewPrinter] returns.
    The fields left out of the literal have their zero value. *)
Definition New (printer : loc) : M loc :=
  c ⇐ newLoggerMap;
  alloc_Logger {| Prefix := [];
                  Logger_Level := InfoLevel;
                  TimeFormat := "2006/01/02 15:04";
                  mu := false;
                  Printer := printer;
                  handlers := nil_slice;
                  once := false;
                  logs := [];
                  children := c |}.

(** ** The marshaler of [Scan] *)

(** What the printer hands the marshaler: a [[]byte], a [string] or a value
    of another type. *)
Inductive ScanValue :=
  | ScanBytes (b : list byte)
  | ScanString (s : string)
  | ScanOther (v : any).

(** The function [Scan] gives to [l.Printer.MarshalFunc]:
    [func(v interface{}) ([]byte, error)].  [None] is the error
    [pio.ErrMarshalNotResponsible]. *)
Definition Scan_marshaler (l : loc) (v : ScanValue) : M (option (list byte)) :=
  let line := match v with
              | ScanBytes b => b
              | ScanString s => list_byte_of_string s
              | ScanOther _ => []
              end in
  if decide (List.length line = 0)%nat then ret None
  else
    now ⇐ time_Now;
    lg ⇐ deref l;
    let formattedTime := time_Format now (TimeFormat lg) in
    if decide (formattedTime ≠ "")
    then ret (Some (list_byte_of_string (formattedTime ++ " ") ++ line)%list)
    else ret (Some line).

End Model.

Arguments World : clear implicits.
Arguments Handler : clear implicits.
Arguments Result : clear implicits.
Arguments M : clear implicits.

(** ** Handlers that write to the record

    A handler is given a [*Log]: it can assign to the fields of the record, and
    what it leaves there is what the next handler, the printer and the pool
    get.  The record then has to sit in memory the handlers reach: here the
    outside state is a pair, the record in flight and the rest.  A handler is
    called with the record as it is at that moment, and returns the memory
    with the record as it leaves it.  [handled_by] and [print_by] are
    [handled] and [print] read this way, and [Print_by], [Println_by],
    [Log_by] and the others are the public methods on top of them.  With
    handlers that only read the record, [print_by] does what [print] does
    ([print_by_reading]). *)

Section Writers.

Context {V : Type}.

Notation "x ⇐ m ; k" := (bind m (λ x, k)) (only parsing).
Notation "m ;;; k" := (bind m (λ _, k)) (only parsing).

(** The record [log] is where the pointer [log] points. *)
Definition place_record (log : Log) : M (Log * V) unit := λ w,
  Ok tt (set_outside (log, (outside w).2) w).

(** The record behind the pointer, as it is now. *)
Definition read_record : M (Log * V) Log := λ w, Ok (outside w).1 w.

(** The loop [for _, h := range l.handlers], from index [i] on: [h(value)]
    with the record as the earlier handlers left it. *)
Fixpoint handled_loop_by (i : nat) (hs : list (Handler (Log * V))) : M (Log * V) bool :=
  match hs with
  | [] => ret false
  | h :: rest =>
      value ⇐ read_record;
      b ⇐ call_handler i h value;
      if b then ret true else handled_loop_by (S i) rest
  end.

(** [func (l *Logger) handled(value *Log) (handled bool)], the record in
    memory. *)
Definition handled_by (l : loc) : M (Log * V) bool :=
  lg ⇐ deref l;
  w ⇐ get_world;
  handled_loop_by 0 (slice_elems w (handlers lg)).

(** [func (l *Logger) print(level Level, msg string, newLine bool)], the
    record in memory: the printer and the pool get the record as the handlers
    left it, and the choice between [Println] and [Print] is made on the
    argument [newLine]. *)
Definition print_by (l : loc) (level : Level) (msg : string) (newLine : bool)
    : M (Log * V) unit :=
  lg ⇐ deref l;
  if (level <=? Logger_Level lg)%N then
    log ⇐ acquireLog l level msg newLine;
    place_record log;;;
    h ⇐ handled_by l;
    log' ⇐ read_record;
    (if negb h then
       lg' ⇐ deref l;
       if newLine then Printer_Println (Printer lg') log'
       else Printer_Print (Printer lg') log'
     else ret tt);;;
    releaseLog l log'
  else ret tt.

Context {any : Type}.
Context (Sprint : list any → string).
Context (Sprintf : string → list any → string).
Context (any_of_string : string → any).

(** [func (l *Logger) Print(v ...interface{})] *)
Definition Print_by (l : loc) (v : list any) : M (Log * V) unit :=
  print_by l DisableLevel (Sprint v) false.

(** [func (l *Logger) Println(v ...interface{})] *)
Definition Println_by (l : loc) (v : list any) : M (Log * V) unit :=
  print_by l DisableLevel (Sprint v) true.

(** [func (l *Logger) Log(level Level, v ...interface{})] *)
Definition Log_by (l : loc) (level : Level) (v : list any) : M (Log * V) unit :=
  print_by l level (Sprint v) true.

(** [func (l *Logger) Logf(level Level, format string, args ...interface{})] *)
Definition Logf_by (l : loc) (level : Level) (format : string) (args : list any)
    : M (Log * V) unit :=
  let msg := Sprintf format args in
  Log_by l level [any_of_string msg].

(** [func (l *Logger) Error(v ...interface{})] *)
Definition Error_by (l : loc) (v : list any) : M (Log * V) unit :=
  Log_by l ErrorLevel v.

(** [func (l *Logger) Errorf(format string, args ...interface{})] *)
Definition Errorf_by (l : loc) (format : string) (args : list any) : M (Log * V) unit :=
  let msg := Sprintf format args in
  Error_by l [any_of_string msg].

(** [func (l *Logger) Warn(v ...interface{})] *)
Definition Warn_by (l : loc) (v : list any) : M (Log * V) unit :=
  Log_by l WarnLevel v.

(** [func (l *Logger) Warnf(format string, args ...interface{})] *)
Definition Warnf_by (l : loc) (format : string) (args : list any) : M (Log * V) unit :=
  let msg := Sprintf format args in
  Warn_by l [any_of_string msg].

(** [func (l *Logger) Info(v ...interface{})] *)
Definition Info_by (l : loc) (v : list any) : M (Log * V) unit :=
  Log_by l InfoLevel v.

(** [func (l *Logger) Infof(format string, args ...interface{})] *)
Definition Infof_by (l : loc) (format : string) (args : list any) : M (Log * V) unit :=
  let msg := Sprintf format args in
  Info_by l [any_of_string msg].

(** [func (l *Logger) Debug(v ...interface{})] *)
Definition Debug_by (l : loc) (v : list any) : M (Log * V) unit :=
  Log_by l DebugLevel v.

(** [func (l *Logger) Debugf(format string, args ...interface{})] *)
Definition Debugf_by (l : loc) (format : string) (args : list any) : M (Log * V) unit :=
  let msg := Sprintf format args in
  Debug_by l [any_of_string msg].

End Writers.

(** What the chain [hs] does from the memory [o], whose first component is
    the record: the answer, the memory it leaves and, for each handler it
    called, the record as that handler found it.  A handler that answers true
    ends the run with the answer true, and the handlers after it are not
    called; a handler that answers false hands over to the next; the answer is
    false when all have answered false. *)
Inductive Ran {V} : list (Handler (Log * V)) → Log * V → bool → Log * V
    → list Log → Prop :=
  | Ran_nil o : Ran [] o false o []
  | Ran_accept h hs o o' :
      h o.1 o = (true, o') →
      Ran (h :: hs) o true o' [o.1]
  | Ran_decline h hs o o1 b o2 rs :
      h o.1 o = (false, o1) →
      Ran hs o1 b o2 rs →
      Ran (h :: hs) o b o2 (o.1 :: rs).

(** [Ran] as a function: the answer, the memory left and the records the
    called handlers found. *)
Fixpoint run_chain {V} (hs : list (Handler (Log * V))) (o : Log * V)
    : bool * (Log * V) * list Log :=
  match hs with
  | [] => (false, o, [])
  | h :: rest =>
      let '(b, o1) := h o.1 o in
      if b then (true, o1, [o.1])
      else let '(b', o2, rs) := run_chain rest o1 in (b', o2, o.1 :: rs)
  end.

(** The calls [h(value)] for the handlers at the indices [i], [i+1], ...,
    each with its record of [rs]. *)
Fixpoint handler_calls_with (i : nat) (rs : list Log) : list Event :=
  match rs with
  | [] => []
  | r :: rest => HandlerCall i r :: handler_calls_with (S i) rest
  end.

(** A handler that leaves the record as it found it. *)
Definition reads_only {V} (h : Handler (Log * V)) : Prop :=
  ∀ r o, (h r o).2.1 = o.1.

(** A handler that leaves the newline flag of the record as it found it. *)
Definition keeps_NewLine {V} (h : Handler (Log * V)) : Prop :=
  ∀ r o, Log_NewLine (h r o).2.1 = Log_NewLine o.1.

(** A handler that only reads the record, [g], among handlers that can
    write to it. *)
Definition reading {V} (g : Handler V) : Handler (Log * V) :=
  λ value o, ((g value o.2).1, (o.1, (g value o.2).2)).

(** The world [w] of handlers that only read, with the record [r] in the
    memory the handlers reach. *)
Definition with_record {V} (r : Log) (w : World V) : World (Log * V) :=
  {| loggers := loggers w; loggerMaps := loggerMaps w;
     arrays := fmap (M:=gmap loc) (fmap (M:=list) (reading (V:=V))) (arrays w);
     clock := clock w; poolChoices := poolChoices w; outside := (r, outside w);
     trace := trace w |}.

Definition result_with_record {V A} (r : Log) (res : Result V A) : Result (Log * V) A :=
  match res with
  | Ok a w => Ok a (with_record r w)
  | Fail f w => Fail f (with_record r w)
  end.

(** ** What a call did *)

Definition world_of {W A} (r : Result W A) : World W :=
  match r with Ok _ w => w | Fail _ w => w end.

(** The events a computation added to the trace of the world [w] it started
    from. *)
Definition call_events {W A} (w : World W) (r : Result W A) : list Event :=
  drop (length (trace w)) (trace (world_of r)).

(** The calls into the printer among some events: what reached the sink. *)
Definition sink_ops (evs : list Event) : list Event := filter (λ e, is_sink e = true) evs.

(** The returns to the pool among some events. *)
Definition pool_puts (evs : list Event) : list Event := filter (λ e, is_PoolPut e = true) evs.

(** The calls [h(value)] for the handlers at the indices [i], ..., [i+n-1]. *)
Definition handler_calls (value : Log) (i n : nat) : list Event :=
  (λ k, HandlerCall k value) <$> seq i n.

(** Every handler of the list, called in order on [value] from the outside
    state [o], answers false; [o'] is the outside state they leave. *)
Inductive Declined {W} (value : Log) : list (Handler W) → W → W → Prop :=
  | Declined_nil o : Declined value [] o o
  | Declined_cons h hs o o1 o2 :
      h value o = (false, o1) →
      Declined value hs o1 o2 →
      Declined value (h :: hs) o o2.

(** ** The spec's words, to compare the code with *)

(** A byte that is white space: space, tab, line feed, vertical tab, form
    feed, carriage return. *)
Definition spec_is_whitespace (c : ascii) : bool := Ascii.is_space c.

Definition last_byte (s : string) : option ascii :=
  String.get (pred (String.length s)) s.

(** The name already ends in white space. *)
Definition spec_ends_in_whitespace (name : string) : bool :=
  match last_byte name with
  | Some c => spec_is_whitespace c
  | None => false
  end.

(** The prefix the spec gives the child called [name]. *)
Definition spec_child_prefix (name : string) : string :=
  if spec_ends_in_whitespace name then name else name ++ ": ".

(** The fields that are not empty, with exactly one space between
    neighbours and none after the last. *)
Fixpoint spec_join (fields : list string) : string :=
  match fields with
  | [] => ""
  | f :: rest =>
      if decide (f = "") then spec_join rest
      else if decide (spec_join rest = "") then f
      else f ++ " " ++ spec_join rest
  end.

(** The line the spec describes: the raw prefix, then level tag, timestamp
    and message. *)
Definition spec_render (prefix : list byte) (tag timestamp message : string) : list byte :=
  (prefix ++ list_byte_of_string (spec_join [tag; timestamp; message]))%list.

(** ** Shapes the statements below are written with *)

(** The world after a step that leaves the registries, the arrays and the
    clock alone. *)
Definition advance {W} (w : World W) (ls : gmap loc Logger)
    (cs : list (option nat)) (o : W) (evs : list Event) : World W :=
  {| loggers := ls; loggerMaps := loggerMaps w; arrays := arrays w;
     clock := clock w; poolChoices := cs; outside := o;
     trace := (trace w ++ evs)%list |}.

(** The record [acquireLog] hands out when the pool gave [got]. *)
Definition acquired (l : loc) (got : option Log) (now : time_Time)
    (level : Level) (msg : string) (nl : bool) : Log :=
  {| Log_Logger := match got with Some r => Log_Logger r | None => l end;
     Log_Time := now; Log_Level := level; Log_Message := msg; Log_NewLine := nl |}.

(** The call into the printer that [print] makes for the record [log]. *)
Definition sink_op (p : loc) (nl : bool) (log : Log) : Event :=
  if nl then PrinterPrintln p log else PrinterPrint p log.

(** A handler of the chain [hs] accepts [value]: the handlers before it
    decline, it answers true and leaves the outside state [o]; [n] handlers
    were called. *)
Definition Accepted {W} (value : Log) (hs : list (Handler W)) (o0 o : W) (n : nat) : Prop :=
  ∃ hs1 h hs2 o1,
    hs = (hs1 ++ h :: hs2)%list ∧ Declined value hs1 o0 o1
    ∧ h value o1 = (true, o) ∧ n = S (length hs1).

(** What the chain [hs] did with [value] from the outside state [o0]: the
    answer [h], the outside state [o] it left and the number [n] of handlers
    called. *)
Definition chain_outcome {W} (value : Log) (hs : list (Handler W)) (o0 : W)
    (h : bool) (o : W) (n : nat) : Prop :=
  (h = false ∧ Declined value hs o0 o ∧ n = length hs)
  ∨ (h = true ∧ Accepted value hs o0 o n).

(** The field [f] followed by its separating space, or nothing for an empty
    field: what the formatter appends for the level tag and for the
    timestamp. *)
Definition spaced (f : string) : string :=
  if decide (f = "") then "" else f ++ " ".

(** A lock nobody holds. *)
Definition free_lock : RWMutex := {| readers := 0; writer := false |}.

(** The Logger [Clone] makes of [lg], with the new registry at [c]. *)
Definition cloned (lg : Logger) (c : loc) : Logger :=
  {| Prefix := Prefix lg; Logger_Level := Logger_Level lg;
     TimeFormat := TimeFormat lg; Printer := Printer lg;
     handlers := handlers lg; children := c;
     mu := false; once := false; logs := [] |}.

(** The handlers the Logger at [l] has registered, in order. *)
Definition chain_of {W} (w : World W) (l : loc) : list (Handler W) :=
  match loggers w !! l with
  | Some lg => slice_elems w (handlers lg)
  | None => []
  end.

(** The array under the slice [s] holds at least the [len(s)] elements the
    slice shows. *)
Definition slice_backed {W} (w : World W) (s : slice) : Prop :=
  (slice_len s ≤ length (default [] (arrays w !! slice_array s)))%nat.


(** ** Scenarios

    Concrete worlds the statements below are tried on.  The outside state is
    the journal the handlers write. *)

Definition accepting : Handler (list string) := λ _ o, (true, (o ++ ["accepting"])%list).
Definition declining : Handler (list string) := λ _ o, (false, (o ++ ["declining"])%list).
Definition auditing : Handler (list string) := λ value o, (false, (o ++ [Log_Message value])%list).

Definition svc (n : nat) (T : Level) (tf : string) (pool : list Log) : Logger :=
  {| Prefix := list_byte_of_string "svc: "; Logger_Level := T; TimeFormat := tf;
     mu := false; Printer := 7%positive;
     handlers := {| slice_array := 1%positive; slice_len := n; slice_cap := n |};
     once := false; logs := pool; children := 1%positive |}.

(** A record left in the pool by an earlier emission. *)
Definition stale : Log :=
  {| Log_Logger := 1%positive; Log_Time := 5%Z; Log_Level := ErrorLevel;
     Log_Message := "disk full"; Log_NewLine := false |}.

(** One logger at location 1 with threshold [T], the handlers [hs], the idle
    records [pool] and an empty registry of children. *)
Definition scene (T : Level) (tf : string) (hs : list (Handler (list string)))
    (pool : list Log) (choices : list (option nat)) : World (list string) :=
  {| loggers := {[ 1%positive := svc (length hs) T tf pool ]};
     loggerMaps := {[ 1%positive := {| loggerMap_mu := free_lock; Items := ∅ |} ]};
     arrays := {[ 1%positive := hs ]};
     clock := 1700000000%Z;
     poolChoices := choices;
     outside := [];
     trace := [] |}.

Definition tab : ascii := ascii_of_nat 9.

(** A record of the logger at 1, at the level Info, with the message [msg]. *)
Definition info_record (msg : string) : Log :=
  {| Log_Logger := 1%positive; Log_Time := 0%Z; Log_Level := InfoLevel;
     Log_Message := msg; Log_NewLine := true |}.

(** Two goroutines ask the logger at 1 for its child "db" for the first time. *)
Definition two_first_requests : list (Goroutine) * World (list string) :=
  ([go_getOrAdd 1%positive "db" 1%positive; go_getOrAdd 1%positive "db" 1%positive],
   scene InfoLevel "" [] [] []).

(** Both goroutines look the name up and miss before either stores its
    child. *)
Definition racing_schedule : list nat :=
  [0; 0; 0; 1; 1; 1; 0; 0; 0; 0; 0; 0; 1; 1; 1; 1; 1; 1]%nat.

(** The first goroutine returns before the second starts. *)
Definition one_after_the_other : list nat :=
  [0; 0; 0; 0; 0; 0; 0; 0; 0; 1; 1; 1; 1; 1; 1; 1; 1; 1]%nat.

(** The logger at 1 with one handler in an array that has room for four. *)
Definition roomy_scene : World (list string) :=
  {| loggers := {[ 1%positive :=
                    {| Prefix := list_byte_of_string "svc: "; Logger_Level := InfoLevel;
                       TimeFormat := ""; mu := false; Printer := 7%positive;
                       handlers := {| slice_array := 1%positive; slice_len := 1;
                                      slice_cap := 4 |};
                       once := false; logs := []; children := 1%positive |} ]};
     loggerMaps := {[ 1%positive := {| loggerMap_mu := free_lock; Items := ∅ |} ]};
     arrays := {[ 1%positive := [declining] ]};
     clock := 1700000000%Z;
     poolChoices := [];
     outside := [];
     trace := [] |}.

(** A handler that breaks lines itself: it clears the newline flag of the
    record, notes it in the journal and declines. *)
Definition clearing : Handler (Log * list string) :=
  λ value o, (false, (set_NewLine false value, (o.2 ++ ["clearing"])%list)).

(** A handler that marks the message of the record and declines. *)
Definition marking : Handler (Log * list string) :=
  λ value o, (false, (set_Message ("! " ++ Log_Message value) value,
                      (o.2 ++ ["marking"])%list)).

(** [scene] with handlers that can write to the record; no record is in
    flight yet, the cell holds a record of an earlier emission. *)
Definition scene_by (T : Level) (hs : list (Handler (Log * list string)))
    (pool : list Log) (choices : list (option nat)) : World (Log * list string) :=
  {| loggers := {[ 1%positive := svc (length hs) T "" pool ]};
     loggerMaps := {[ 1%positive := {| loggerMap_mu := free_lock; Items := ∅ |} ]};
     arrays := {[ 1%positive := hs ]};
     clock := 1700000000%Z;
     poolChoices := choices;
     outside := (stale, []);
     trace := [] |}.



(** The runtime doubles the capacity of a slice that has to grow. *)
Definition doubling (c : nat) : nat := 2 * c.

(** Level names of the scenarios: "debug" and "error", anything else Info. *)
Definition level_of_name (name : string) : Level :=
  if decide (name = "debug") then DebugLevel
  else if decide (name = "error") then ErrorLevel
  else InfoLevel.

(** * Properties *)

Ltac run :=
  unfold bind, ret, fail, get_world, put_world, emit, deref, store,
    deref_map, store_map, time_Now; cbn.

Section Properties.

Context {W : Type}.
Implicit Types (w : World W) (l p m : loc) (lg : Logger) (value log : Log)
  (hs : list (Handler W)) (o : W).

Lemma with_logs_same lg : with_logs lg (logs lg) = lg.
Proof. by destruct lg. Qed.

Lemma advance_nothing w : advance w (loggers w) (poolChoices w) (outside w) [] = w.
Proof. destruct w; unfold advance; cbn. by rewrite app_nil_r. Qed.

Lemma call_events_advance {A} w (a : A) ls cs o evs :
  call_events w (Ok a (advance w ls cs o evs)) = evs.
Proof. unfold call_events; cbn. by rewrite drop_app_length. Qed.

(** ** The pool *)

Lemma Pool_Get_run w l lg :
  loggers w !! l = Some lg →
  ∃ got q,
    Pool_Get l w
    = Ok got (advance w (<[l := with_logs lg q]> (loggers w))
                (tail (poolChoices w)) (outside w) [PoolGet l got])
    ∧ (got = None ∧ q = logs lg
       ∨ ∃ i x, got = Some x ∧ logs lg !! i = Some x ∧ q = delete i (logs lg)).
Proof.
  intros Hl. unfold Pool_Get. run. rewrite Hl. cbn.
  destruct (poolChoices w) as [|[i|] cs] eqn:Hc; cbn.
  - exists None, (logs lg). split; [|by left].
    unfold advance, set_poolChoices; cbn.
    by rewrite with_logs_same, insert_id.
  - destruct (logs lg !! i) as [x|] eqn:Hx; cbn.
    + exists (Some x), (delete i (logs lg)). split; [done|].
      right. by exists i, x.
    + exists None, (logs lg). split; [|by left].
      unfold advance; cbn. by rewrite with_logs_same, insert_id.
  - exists None, (logs lg). split; [|by left].
    unfold advance; cbn. by rewrite with_logs_same, insert_id.
Qed.

Lemma acquireLog_run w l lg level msg nl :
  loggers w !! l = Some lg →
  ∃ got q,
    acquireLog l level msg nl w
    = Ok (acquired l got (clock w) level msg nl)
        (advance w (<[l := with_logs lg q]> (loggers w))
           (tail (poolChoices w)) (outside w) [PoolGet l got])
    ∧ (got = None ∧ q = logs lg
       ∨ ∃ i x, got = Some x ∧ logs lg !! i = Some x ∧ q = delete i (logs lg)).
Proof.
  intros Hl. destruct (Pool_Get_run w l lg Hl) as (got & q & Hg & Hq).
  exists got, q. split; [|done].
  unfold acquireLog, bind. rewrite Hg. cbn. by destruct got.
Qed.

(** ** The chain *)

Lemma call_handler_run w i (h : Handler W) value :
  call_handler i h value w
  = Ok (h value (outside w)).1
      (advance w (loggers w) (poolChoices w) (h value (outside w)).2
         [HandlerCall i value]).
Proof.
  unfold call_handler. run. by destruct (h value (outside w)).
Qed.

Lemma advance_advance w ls cs o evs ls' cs' o' evs' :
  advance (advance w ls cs o evs) ls' cs' o' evs'
  = advance w ls' cs' o' (evs ++ evs').
Proof. unfold advance; cbn. by rewrite app_assoc. Qed.

Lemma handler_calls_S value i n :
  handler_calls value i (S n) = HandlerCall i value :: handler_calls value (S i) n.
Proof. done. Qed.

Lemma handled_loop_declined value hs : ∀ i w o1,
  Declined value hs (outside w) o1 →
  handled_loop i hs value w
  = Ok false (advance w (loggers w) (poolChoices w) o1
                (handler_calls value i (length hs))).
Proof.
  induction hs as [|h hs IH]; intros i w o1 Hd; inversion Hd; subst; cbn.
  - unfold ret. by rewrite advance_nothing.
  - unfold bind. rewrite call_handler_run.
    match goal with H : h value _ = _ |- _ => rewrite H end. cbn.
    erewrite IH by (cbn; eassumption). cbn.
    by rewrite advance_advance.
Qed.

Lemma handled_loop_accepted value hs1 h hs2 : ∀ i w o1 o2,
  Declined value hs1 (outside w) o1 →
  h value o1 = (true, o2) →
  handled_loop i (hs1 ++ h :: hs2) value w
  = Ok true (advance w (loggers w) (poolChoices w) o2
               (handler_calls value i (S (length hs1)))).
Proof.
  induction hs1 as [|h1 hs1 IH]; intros i w o1 o2 Hd Hh; inversion Hd; subst; cbn.
  - unfold bind. rewrite call_handler_run, Hh. done.
  - unfold bind. rewrite call_handler_run.
    match goal with H : h1 value _ = _ |- _ => rewrite H end. cbn.
    erewrite IH by (cbn; eassumption). cbn.
    by rewrite advance_advance.
Qed.

(** Either every handler declines, or there is a first one that accepts. *)
Lemma chain_cases value hs o :
  (∃ o1, Declined value hs o o1)
  ∨ (∃ hs1 h hs2 o1 o2,
       hs = (hs1 ++ h :: hs2)%list ∧ Declined value hs1 o o1 ∧ h value o1 = (true, o2)).
Proof.
  revert o. induction hs as [|h hs IH]; intros o.
  - left. exists o. constructor.
  - destruct (h value o) as [[|] o'] eqn:Hh.
    + right. exists [], h, hs, o, o'. repeat split; [constructor|done].
    + destruct (IH o') as [(o1 & Hd)|(hs1 & h' & hs2 & o1 & o2 & -> & Hd & Hh')].
      * left. exists o1. by econstructor.
      * right. exists (h :: hs1), h', hs2, o1, o2.
        repeat split; [by econstructor|done].
Qed.

Lemma handled_run w l lg value :
  loggers w !! l = Some lg →
  ∃ h o n,
    handled l value w
    = Ok h (advance w (loggers w) (poolChoices w) o (handler_calls value 0 n))
    ∧ chain_outcome value (slice_elems w (handlers lg)) (outside w) h o n.
Proof.
  intros Hl. unfold handled. run. rewrite Hl. cbn.
  destruct (chain_cases value (slice_elems w (handlers lg)) (outside w))
    as [(o1 & Hd)|(hs1 & hh & hs2 & o1 & o2 & Heq & Hd & Hh)].
  - exists false, o1, (length (slice_elems w (handlers lg))).
    split; [by apply handled_loop_declined|]. by left.
  - exists true, o2, (S (length hs1)). rewrite Heq.
    split; [by eapply handled_loop_accepted|].
    right. split; [done|]. by exists hs1, hh, hs2, o1.
Qed.

(** A chain cannot both decline and accept the same record. *)
Lemma Declined_not_Accepted value hs : ∀ o0 o1 o2 n,
  Declined value hs o0 o1 → Accepted value hs o0 o2 n → False.
Proof.
  induction hs as [|h hs IH]; intros o0 o1 o2 n Hd (hs1 & hh & hs2 & o' & Heq & Hd1 & Hh & Hn).
  - by destruct hs1.
  - inversion Hd; subst. destruct hs1 as [|h1 hs1]; simplify_eq/=.
    + inversion Hd1; subst. congruence.
    + inversion Hd1; subst.
      match goal with
      | H1 : h1 value o0 = _, H2 : h1 value o0 = _ |- _ =>
          rewrite H1 in H2; simplify_eq
      end.
      eapply IH; [eassumption|]. by eexists hs1, hh, hs2, o'.
Qed.

(** ** One call of [print] that passes the filter, step by step *)
Lemma print_pass w l lg level msg nl :
  loggers w !! l = Some lg →
  (level ≤ Logger_Level lg)%N →
  ∃ got q h o n,
    let log := acquired l got (clock w) level msg nl in
    let wa := advance w (<[l := with_logs lg q]> (loggers w))
                (tail (poolChoices w)) (outside w) [PoolGet l got] in
    acquireLog l level msg nl w = Ok log wa
    ∧ handled l log wa
      = Ok h (advance wa (loggers wa) (poolChoices wa) o (handler_calls log 0 n))
    ∧ chain_outcome log (slice_elems w (handlers lg)) (outside w) h o n
    ∧ print l level msg nl w
      = Ok tt (advance w (<[l := with_logs lg (log :: q)]> (loggers w))
                 (tail (poolChoices w)) o
                 ([PoolGet l got] ++ handler_calls log 0 n
                  ++ (if h then [] else [sink_op (Printer lg) nl log])
                  ++ [PoolPut l log])).
Proof.
  intros Hl Hle.
  destruct (acquireLog_run w l lg level msg nl Hl) as (got & q & Ha & _).
  set (log := acquired l got (clock w) level msg nl) in *.
  set (wa := advance w (<[l := with_logs lg q]> (loggers w))
               (tail (poolChoices w)) (outside w) [PoolGet l got]) in *.
  assert (Hla : loggers wa !! l = Some (with_logs lg q))
    by (subst wa; cbn; apply lookup_insert_eq).
  destruct (handled_run wa l _ log Hla) as (h & o & n & Hh & Hc).
  exists got, q, h, o, n. cbn zeta. split; [done|]. split; [done|].
  split; [done|].
  unfold print. unfold bind at 1. unfold deref at 1. rewrite Hl.
  apply N.leb_le in Hle. rewrite Hle.
  unfold bind at 1. fold log. rewrite Ha.
  unfold bind at 1. rewrite Hh.
  unfold releaseLog, Pool_Put.
  destruct h; cbn; run.
  - rewrite lookup_insert_eq. cbn. unfold advance, set_loggers; cbn.
    rewrite insert_insert_eq. do 2 f_equal.
    by rewrite <- !app_assoc.
  - rewrite lookup_insert_eq. cbn.
    destruct nl; cbn; run; rewrite lookup_insert_eq; cbn;
      unfold advance, set_loggers; cbn;
      rewrite insert_insert_eq; do 2 f_equal;
      by rewrite <- !app_assoc.
Qed.

(** A call below the threshold does nothing at all. *)
Lemma print_filtered w l lg level msg nl :
  loggers w !! l = Some lg →
  (Logger_Level lg < level)%N →
  print l level msg nl w = Ok tt w.
Proof.
  intros Hl Hlt. unfold print. run. rewrite Hl.
  apply N.leb_gt in Hlt. by rewrite Hlt.
Qed.

Lemma sink_ops_handler_calls value i n : sink_ops (handler_calls value i n) = [].
Proof.
  revert i. induction n as [|n IH]; intros i; [done|].
  rewrite handler_calls_S. unfold sink_ops. rewrite filter_cons_False by done.
  apply IH.
Qed.


Lemma sink_ops_print_events l got value n (h : bool) p nl :
  sink_ops ([PoolGet l got] ++ handler_calls value 0 n
            ++ (if h then [] else [sink_op p nl value]) ++ [PoolPut l value])
  = if h then [] else [sink_op p nl value].
Proof.
  unfold sink_ops. rewrite !filter_app. fold (sink_ops (handler_calls value 0 n)).
  rewrite sink_ops_handler_calls. by destruct h, nl.
Qed.


Lemma call_events_print_pass w l lg level msg nl got q (h : bool) o n :
  print l level msg nl w
  = Ok tt (advance w (<[l := with_logs lg (acquired l got (clock w) level msg nl :: q)]> (loggers w))
             (tail (poolChoices w)) o
             ([PoolGet l got] ++ handler_calls (acquired l got (clock w) level msg nl) 0 n
              ++ (if h then [] else [sink_op (Printer lg) nl (acquired l got (clock w) level msg nl)])
              ++ [PoolPut l (acquired l got (clock w) level msg nl)])) →
  call_events w (print l level msg nl w)
  = ([PoolGet l got] ++ handler_calls (acquired l got (clock w) level msg nl) 0 n
     ++ (if h then [] else [sink_op (Printer lg) nl (acquired l got (clock w) level msg nl)])
     ++ [PoolPut l (acquired l got (clock w) level msg nl)])%list.
Proof. intros ->. apply call_events_advance. Qed.

(** ** The claims about [print], [handled] and the pool *)

(** C8.  Every record [acquireLog] returns carries the level, the message,
    the time and the newline flag of the current call, whether the pool
    handed back an idle record ([got] is one of the idle set) or had none to
    give and a new record was made. *)
Theorem acquireLog_overwrites w l lg level msg nl :
  loggers w !! l = Some lg →
  ∃ log w' got,
    acquireLog l level msg nl w = Ok log w'
    ∧ call_events w (acquireLog l level msg nl w) = [PoolGet l got]
    ∧ (got = None ∨ ∃ x, got = Some x ∧ x ∈ logs lg)
    ∧ Log_Level log = level
    ∧ Log_Message log = msg
    ∧ Log_Time log = clock w
    ∧ Log_NewLine log = nl.
Proof.
  intros Hl.
  destruct (acquireLog_run w l lg level msg nl Hl) as (got & q & Ha & Hq).
  eexists _, _, got. split; [exact Ha|]. rewrite Ha.
  split; [apply call_events_advance|].
  split; [|done].
  destruct Hq as [[-> _]|(i & x & -> & Hx & _)]; [by left|].
  right. exists x. split; [done|]. by eapply list_elem_of_lookup_2.
Qed.


Lemma call_events_nothing {A} w (a : A) : call_events w (Ok a w) = [].
Proof. unfold call_events; cbn. apply drop_all. Qed.

(** What reaches the sink from one call of [print], for any chain. *)
Lemma print_emits_iff w l lg level msg nl :
  loggers w !! l = Some lg →
  ∃ got,
    let log := acquired l got (clock w) level msg nl in
    let emitted := sink_ops (call_events w (print l level msg nl w)) in
    (emitted ≠ []
     ↔ (level ≤ Logger_Level lg)%N
       ∧ ¬ ∃ o n, Accepted log (slice_elems w (handlers lg)) (outside w) o n)
    ∧ (emitted ≠ [] → emitted = [sink_op (Printer lg) nl log])
    ∧ ((level ≤ Logger_Level lg)%N →
       head (call_events w (print l level msg nl w)) = Some (PoolGet l got)).
Proof.
  intros Hl. destruct (N.le_gt_cases level (Logger_Level lg)) as [Hle|Hgt].
  - destruct (print_pass w l lg level msg nl Hl Hle)
      as (got & q & h & o & n & _ & _ & Hc & Hp).
    cbn zeta in *. pose proof (call_events_print_pass _ _ _ _ _ _ _ _ _ _ _ Hp) as He.
    exists got. cbn zeta. rewrite He, sink_ops_print_events.
    split; [|split; [|done]].
    + destruct Hc as [(-> & Hd & _)|(-> & Hacc)].
      * split; [|done]. intros _. split; [done|].
        intros (o' & n' & Hacc). by eapply Declined_not_Accepted.
      * split; [done|]. intros [_ Hn]. destruct Hn. by exists o, n.
    + by destruct h.
  - exists None. cbn zeta. rewrite (print_filtered w l lg level msg nl Hl Hgt).
    rewrite call_events_nothing. cbn.
    split; [|split; [done|]]; [|lia].
    split; [done|]. intros [Hle _]. lia.
Qed.



(** ** The formatter *)

Lemma string_app_cons x (a b : string) : String x a ++ b = String x (a ++ b).
Proof. done. Qed.

Lemma string_app_nil_l (a : string) : "" ++ a = a.
Proof. done. Qed.

Lemma string_app_assoc (a b c : string) : (a ++ b) ++ c = a ++ (b ++ c).
Proof.
  induction a as [|x a IH]; [done|]. rewrite !string_app_cons. by f_equal.
Qed.

Lemma string_app_nil_r (a : string) : a ++ "" = a.
Proof. induction a as [|x a IH]; [done|]. rewrite string_app_cons. by f_equal. Qed.

Lemma string_app_not_nil (a b : string) : a ≠ "" → a ++ b ≠ "".
Proof. by destruct a. Qed.

Lemma spec_join_message tag t msg :
  msg ≠ "" → spec_join [tag; t; msg] = spaced tag ++ spaced t ++ msg.
Proof.
  intros Hm. unfold spaced, spec_join.
  destruct (decide (msg = "")) as [|_]; [done|].
  destruct (decide ("" = "")) as [_|]; [|done].
  destruct (decide (t = "")) as [->|Ht], (decide (tag = "")) as [->|Htag];
    rewrite ?string_app_nil_l.
  - done.
  - destruct (decide (msg = "")) as [|_]; [done|]. by rewrite string_app_assoc.
  - destruct (decide (msg = "")) as [|_]; [done|]. by rewrite string_app_assoc.
  - destruct (decide (msg = "")) as [|_]; [done|].
    destruct (decide (t ++ " " ++ msg = "")) as [He|_].
    + by apply string_app_not_nil in He.
    + by rewrite !string_app_assoc.
Qed.

Lemma spaced_first (x : string) :
  (if decide (x ≠ "") then x ++ " " else x) = spaced x.
Proof.
  unfold spaced. destruct (decide (x ≠ "")), (decide (x = "")); by subst.
Qed.

Lemma spaced_next (a x : string) :
  (if decide (x ≠ "") then a ++ (x ++ " ") else a) = a ++ spaced x.
Proof.
  unfold spaced. destruct (decide (x ≠ "")), (decide (x = "")); subst;
    try done.
  by rewrite string_app_nil_r.
Qed.

Lemma logHijacker_run {any} (time_Format : time_Time → string → string)
    (colorful : Level → string → string) w log lg isTerminal :
  loggers w !! Log_Logger log = Some lg →
  logHijacker (any:=any) time_Format colorful (ValueLog log) isTerminal w
  = Ok (Some (Prefix lg
              ++ list_byte_of_string
                   (spaced (GetTextForLevel colorful (Log_Level log) isTerminal)
                    ++ spaced (if decide (TimeFormat lg = "") then ""
                               else time_Format (Log_Time log) (TimeFormat lg))
                    ++ Log_Message log))%list) w.
Proof.
  intros Hl. unfold logHijacker, FormatTime. run. rewrite Hl. cbn.
  assert (Hp : ∀ line : list byte,
    (if decide (0 < length (Prefix lg))%nat then (Prefix lg ++ line)%list else line)
    = (Prefix lg ++ line)%list).
  { intros line. destruct (decide _) as [|Hn]; [done|].
    destruct (Prefix lg); [done|]. cbn in Hn. lia. }
  destruct (decide (TimeFormat lg = "")) as [Htf|Htf]; cbn; rewrite Hl; cbn;
    by rewrite Hp, spaced_first, spaced_next, string_app_assoc.
Qed.

(** C3 (amended).  The formatter renders the Logger's prefix bytes, raw and
    with no separator of its own, then the level tag followed by one space
    unless the tag is empty, then the timestamp followed by one space unless
    it is empty, then the message.  The tag is empty for the level-less tier
    and the timestamp is empty when TimeFormat is empty.  When the message
    is not empty this is the line of the spec: exactly one space between
    neighbouring non-empty fields and none at the end.  With the prefix
    "svc: ", an empty TimeFormat, the level Info and the message "ready" on a
    destination without colors, the line is "svc: INFO ready". *)
Theorem logHijacker_renders {any} (time_Format : time_Time → string → string)
    (colorful : Level → string → string) w log lg isTerminal :
  loggers w !! Log_Logger log = Some lg →
  let tag := GetTextForLevel colorful (Log_Level log) isTerminal in
  let t := if decide (TimeFormat lg = "") then ""
           else time_Format (Log_Time log) (TimeFormat lg) in
  logHijacker (any:=any) time_Format colorful (ValueLog log) isTerminal w
  = Ok (Some (Prefix lg
              ++ list_byte_of_string (spaced tag ++ spaced t ++ Log_Message log))%list) w
  ∧ (Log_Level log = DisableLevel → tag = "")
  ∧ (TimeFormat lg = "" → t = "")
  ∧ (Log_Message log ≠ "" →
     logHijacker (any:=any) time_Format colorful (ValueLog log) isTerminal w
     = Ok (Some (spec_render (Prefix lg) tag t (Log_Message log))) w)
  ∧ (Prefix lg = list_byte_of_string "svc: " →
     TimeFormat lg = "" →
     Log_Level log = InfoLevel →
     Log_Message log = "ready" →
     logHijacker (any:=any) time_Format colorful (ValueLog log) false w
     = Ok (Some (list_byte_of_string "svc: INFO ready")) w).
Proof.
  intros Hl tag t. split; [by apply logHijacker_run|].
  split; [by subst tag; intros ->|].
  split; [by subst t; intros ->|].
  split.
  - intros Hm. rewrite (logHijacker_run _ _ _ _ _ _ Hl).
    unfold spec_render. by rewrite spec_join_message.
  - intros Hp Htf Hlv Hm. rewrite (logHijacker_run _ _ _ _ _ _ Hl).
    by rewrite Hp, Htf, Hlv, Hm.
Qed.

(** ** Cloning, prefixes and the registry *)

Lemma set_loggerMaps_same w : set_loggerMaps (λ _, loggerMaps w) w = w.
Proof. by destruct w. Qed.

Lemma fresh_logger w : loggers w !! fresh (dom (loggers w)) = None.
Proof. apply not_elem_of_dom, is_fresh. Qed.

Lemma fresh_loggerMap w : loggerMaps w !! fresh (dom (loggerMaps w)) = None.
Proof. apply not_elem_of_dom, is_fresh. Qed.

Lemma SetPrefix_blocked w l lg s :
  loggers w !! l = Some lg →
  mu lg = true →
  SetPrefix l s w = Fail Blocked w.
Proof.
  intros Hl Hmu. unfold SetPrefix, Mutex_Lock. run. by rewrite Hl, Hmu.
Qed.

Lemma Clone_run w p lg :
  loggers w !! p = Some lg →
  Clone p w
  = Ok (fresh (dom (loggers w)))
      (set_loggers <[fresh (dom (loggers w)) := cloned lg (fresh (dom (loggerMaps w)))]>
         (set_loggerMaps
            <[fresh (dom (loggerMaps w)) := {| loggerMap_mu := free_lock; Items := ∅ |}]> w)).
Proof.
  intros Hl. unfold Clone, newLoggerMap, alloc_loggerMap, alloc_Logger. run.
  by rewrite Hl.
Qed.

Lemma SetPrefix_run w l lg s :
  loggers w !! l = Some lg →
  mu lg = false →
  SetPrefix l s w
  = Ok l (set_loggers <[l := with_Prefix lg (list_byte_of_string s)]> w).
Proof.
  intros Hl Hmu. unfold SetPrefix, Mutex_Lock, Mutex_Unlock. run.
  rewrite Hl, Hmu. cbn. rewrite lookup_insert_eq. cbn.
  rewrite lookup_insert_eq. cbn. unfold set_loggers; cbn.
  rewrite !insert_insert_eq. do 3 f_equal.
  destruct lg; cbn in *. by subst.
Qed.

(** The read section [RLock; Items[name]; RUnlock] on a free lock leaves the
    world as it was. *)
Lemma registry_read {A} w m lm name (k : option loc → M W A) :
  loggerMaps w !! m = Some lm →
  loggerMap_mu lm = free_lock →
  bind (RWMutex_RLock m) (λ _,
    bind (Items_lookup m name) (λ r,
      bind (RWMutex_RUnlock m) (λ _, k r))) w
  = k (Items lm !! name) w.
Proof.
  intros Hm Hfree. unfold RWMutex_RLock, Items_lookup, RWMutex_RUnlock. run.
  rewrite Hm, Hfree. cbn. rewrite lookup_insert_eq. cbn.
  rewrite lookup_insert_eq. cbn. unfold set_loggerMaps; cbn.
  rewrite insert_insert_eq.
  replace (with_loggerMap_mu _ _) with lm
    by (destruct lm; cbn in *; by subst).
  rewrite insert_id by done. by destruct w.
Qed.

(** The write section [Lock; Items[name] = logger; Unlock] on a free lock. *)
Lemma registry_write {A} w m lm name c (k : M W A) :
  loggerMaps w !! m = Some lm →
  loggerMap_mu lm = free_lock →
  bind (RWMutex_Lock m) (λ _,
    bind (Items_insert m name c) (λ _,
      bind (RWMutex_Unlock m) (λ _, k))) w
  = k (set_loggerMaps
         <[m := {| loggerMap_mu := free_lock; Items := <[name := c]> (Items lm) |}]> w).
Proof.
  intros Hm Hfree. unfold RWMutex_Lock, Items_insert, RWMutex_Unlock. run.
  rewrite Hm, Hfree. cbn. rewrite lookup_insert_eq. cbn.
  rewrite lookup_insert_eq. cbn. unfold set_loggerMaps; cbn.
  by rewrite !insert_insert_eq.
Qed.

Lemma string_get_lt (s : string) : ∀ n,
  (n < String.length s)%nat → ∃ c, String.get n s = Some c.
Proof.
  induction s as [|x s IH]; intros n Hn; cbn in *; [lia|].
  destruct n as [|n]; [by exists x|]. apply IH. lia.
Qed.

Lemma last_byte_Some (name : string) :
  name ≠ "" → ∃ c, last_byte name = Some c.
Proof.
  intros Hn. apply string_get_lt. destruct name; [done|]. cbn. lia.
Qed.

Lemma child_prefix_run w name c :
  last_byte name = Some c →
  child_prefix name w
  = Ok (if decide (c = " "%char) then name else name ++ ": ") w.
Proof.
  intros Hc. unfold child_prefix, string_index. run.
  assert (Hlen : (0 < String.length name)%nat).
  { destruct name; [done|]. cbn. lia. }
  destruct (decide _) as [_|Hn]; [|lia].
  replace (Z.to_nat (Z.of_nat (String.length name) - 1))
    with (pred (String.length name)) by lia.
  unfold last_byte in Hc. rewrite Hc. cbn.
  by destruct (decide (c ≠ " "%char)), (decide (c = " "%char)).
Qed.

Lemma child_prefix_empty w : child_prefix "" w = Fail IndexOutOfRange w.
Proof. done. Qed.

Lemma fresh_logger_ne w l lg : loggers w !! l = Some lg → fresh (dom (loggers w)) ≠ l.
Proof. intros Hl He. rewrite <- He, fresh_logger in Hl. done. Qed.

Lemma fresh_loggerMap_ne w m lm :
  loggerMaps w !! m = Some lm → fresh (dom (loggerMaps w)) ≠ m.
Proof. intros Hm He. rewrite <- He, fresh_loggerMap in Hm. done. Qed.

(** A first request: the name is not in the registry and is not empty. *)
Lemma getOrAdd_miss w m name parent lgp lm ch :
  loggers w !! parent = Some lgp →
  loggerMaps w !! m = Some lm →
  loggerMap_mu lm = free_lock →
  Items lm !! name = None →
  last_byte name = Some ch →
  ∃ w',
    getOrAdd m name parent w = Ok (fresh (dom (loggers w))) w'
    ∧ loggers w'
      = <[fresh (dom (loggers w)) :=
            with_Prefix (cloned lgp (fresh (dom (loggerMaps w))))
              (list_byte_of_string
                 (if decide (ch = " "%char) then name else name ++ ": "))]>
          (loggers w)
    ∧ loggerMaps w'
      = <[m := {| loggerMap_mu := free_lock;
                  Items := <[name := fresh (dom (loggers w))]> (Items lm) |}]>
          (<[fresh (dom (loggerMaps w)) :=
               {| loggerMap_mu := free_lock; Items := ∅ |}]> (loggerMaps w))
    ∧ trace w' = trace w ∧ outside w' = outside w.
Proof.
  intros Hp Hm Hfree Hnone Hch. unfold getOrAdd.
  rewrite (registry_read w m lm name _ Hm Hfree), Hnone.
  unfold bind at 1. rewrite (Clone_run w parent lgp Hp).
  unfold bind at 1. rewrite (child_prefix_run _ name ch Hch).
  unfold bind at 1. erewrite SetPrefix_run; [|cbn; apply lookup_insert_eq|done].
  erewrite registry_write;
    [|cbn; rewrite lookup_insert_ne by (by eapply fresh_loggerMap_ne); exact Hm
     |done].
  eexists. split; [done|]. cbn. by rewrite insert_insert_eq.
Qed.

(** C6 (amended).  On the first request of a name that is not empty, the
    child is a new Logger stored under the name, and its prefix is the name
    followed by ": " when the last byte of the name is not the space
    character (byte 32), and the unchanged name when it is. *)
Theorem getOrAdd_child_prefix w m name parent lgp lm :
  loggers w !! parent = Some lgp →
  loggerMaps w !! m = Some lm →
  loggerMap_mu lm = free_lock →
  Items lm !! name = None →
  name ≠ "" →
  ∃ c w' lc lm',
    getOrAdd m name parent w = Ok c w'
    ∧ loggers w !! c = None
    ∧ loggerMaps w' !! m = Some lm'
    ∧ Items lm' = <[name := c]> (Items lm)
    ∧ loggers w' !! c = Some lc
    ∧ Prefix lc
      = list_byte_of_string
          (if decide (last_byte name = Some " "%char) then name
           else name ++ ": ").
Proof.
  intros Hp Hm Hfree Hnone Hne.
  destruct (last_byte_Some name Hne) as (ch & Hch).
  destruct (getOrAdd_miss w m name parent lgp lm ch Hp Hm Hfree Hnone Hch)
    as (w' & Hrun & Hls & Hms & _).
  eexists _, w', _, _. split; [exact Hrun|].
  split; [apply fresh_logger|].
  split; [rewrite Hms; apply lookup_insert_eq|].
  split; [done|].
  split; [rewrite Hls; apply lookup_insert_eq|].
  cbn. rewrite Hch.
  destruct (decide (ch = " "%char)) as [->|Hc], (decide (Some _ = Some _));
    try done; congruence.
Qed.

(** C9.  [Child("")] on a Logger whose registry has no entry for the empty
    name does not return a Logger: after the clone, the first-time
    derivation indexes the last byte of the empty name and panics with an
    index out of range.  No child is stored. *)
Theorem Child_empty_name_panics w l lg lm :
  loggers w !! l = Some lg →
  loggerMaps w !! children lg = Some lm →
  loggerMap_mu lm = free_lock →
  Items lm !! "" = None →
  ∃ w',
    Child l "" w = Fail IndexOutOfRange w'
    ∧ loggerMaps w' !! children lg = Some lm
    ∧ loggers w' !! l = Some lg.
Proof.
  intros Hl Hm Hfree Hnone. unfold Child. unfold bind at 1, deref at 1.
  rewrite Hl. unfold getOrAdd.
  rewrite (registry_read w _ lm "" _ Hm Hfree), Hnone.
  unfold bind at 1. rewrite (Clone_run w l lg Hl).
  unfold bind at 1. rewrite child_prefix_empty.
  eexists. split; [done|]. cbn.
  split.
  - rewrite lookup_insert_ne by (by eapply fresh_loggerMap_ne). done.
  - rewrite lookup_insert_ne by (by eapply fresh_logger_ne). done.
Qed.

(** C7.  [Clone] makes a new Logger that starts with the parent's Prefix,
    Level, TimeFormat, Printer and handler slice, with a free mutex, a
    one-shot guard that has not run, an empty pool and a new, empty registry
    of its own; the parent is left as it was.  After the clone, [SetPrefix]
    on the clone leaves the parent's Prefix alone, and [SetPrefix] on the
    parent leaves the clone alone (whether it sets the parent's Prefix or
    waits for the parent's mutex). *)
Theorem Clone_independent w p lg :
  loggers w !! p = Some lg →
  ∃ c w1 lc,
    Clone p w = Ok c w1
    ∧ c ≠ p
    ∧ loggers w !! c = None
    ∧ loggers w1 !! p = Some lg
    ∧ loggers w1 !! c = Some lc
    ∧ Prefix lc = Prefix lg
    ∧ Logger_Level lc = Logger_Level lg
    ∧ TimeFormat lc = TimeFormat lg
    ∧ Printer lc = Printer lg
    ∧ handlers lc = handlers lg
    ∧ mu lc = false
    ∧ once lc = false
    ∧ logs lc = []
    ∧ loggerMaps w !! children lc = None
    ∧ loggerMaps w1 !! children lc
      = Some {| loggerMap_mu := free_lock; Items := ∅ |}
    ∧ (∀ lm, loggerMaps w !! children lg = Some lm →
         children lc ≠ children lg ∧ loggerMaps w1 !! children lg = Some lm)
    ∧ (∀ s, ∃ w2,
         SetPrefix c s w1 = Ok c w2
         ∧ loggers w2 !! p = Some lg
         ∧ loggers w2 !! c = Some (with_Prefix lc (list_byte_of_string s)))
    ∧ (∀ s, mu lg = false → ∃ w2,
         SetPrefix p s w1 = Ok p w2
         ∧ loggers w2 !! c = Some lc
         ∧ loggers w2 !! p = Some (with_Prefix lg (list_byte_of_string s)))
    ∧ (∀ s, loggers (world_of (SetPrefix p s w1)) !! c = Some lc).
Proof.
  intros Hl. pose proof (fresh_logger_ne w p lg Hl) as Hne.
  eexists _, _, _. split; [by apply Clone_run|].
  split; [done|]. split; [apply fresh_logger|]. cbn.
  split; [by rewrite lookup_insert_ne|].
  split; [apply lookup_insert_eq|].
  do 8 (split; [done|]).
  split; [apply fresh_loggerMap|].
  split; [apply lookup_insert_eq|].
  split; [|split; [|split]].
  - intros lm Hm. pose proof (fresh_loggerMap_ne w _ lm Hm) as Hnem.
    split; [done|]. by rewrite lookup_insert_ne.
  - intros s. eexists. split.
    + apply SetPrefix_run; [cbn; apply lookup_insert_eq|done].
    + cbn. split; [|apply lookup_insert_eq].
      rewrite lookup_insert_ne by done. by rewrite lookup_insert_ne.
  - intros s Hmu. eexists. split.
    + apply SetPrefix_run; [cbn; by rewrite lookup_insert_ne|done].
    + cbn. split; [|apply lookup_insert_eq].
      rewrite lookup_insert_ne by done. apply lookup_insert_eq.
  - intros s. destruct (mu lg) eqn:Hmu.
    + erewrite SetPrefix_blocked; [|cbn; by rewrite lookup_insert_ne|done].
      cbn. apply lookup_insert_eq.
    + erewrite SetPrefix_run; [|cbn; by rewrite lookup_insert_ne|done].
      cbn. rewrite lookup_insert_ne by done. apply lookup_insert_eq.
Qed.

(** A later request finds the stored child and returns it. *)
Lemma getOrAdd_hit w m name parent lm c :
  loggerMaps w !! m = Some lm →
  loggerMap_mu lm = free_lock →
  Items lm !! name = Some c →
  getOrAdd m name parent w = Ok c w.
Proof.
  intros Hm Hfree Hc. unfold getOrAdd.
  by rewrite (registry_read w m lm name _ Hm Hfree), Hc.
Qed.

(** The statements of a goroutine, run one after the other without
    interruption, are the body of [getOrAdd]. *)
Lemma getOrAdd_as_steps w m name parent :
  getOrAdd m name parent w
  = match getOrAdd_steps 9 m name parent AtRLock w with
    | Ok (Returned c) w' => Ok c w'
    | Ok _ w' => Fail Blocked w'
    | Fail f w' => Fail f w'
    end.
Proof.
  unfold getOrAdd, getOrAdd_steps, getOrAdd_step, bind, ret.
  destruct (RWMutex_RLock m w) as [[] w1|]; [|done].
  destruct (Items_lookup m name w1) as [r w2|]; [|done].
  destruct (RWMutex_RUnlock m w2) as [[] w3|]; [|done].
  destruct r as [c|]; [done|].
  destruct (Clone parent w3) as [c w4|]; [|done].
  destruct (child_prefix name w4) as [pre w5|]; [|done].
  destruct (SetPrefix c pre w5) as [c' w6|]; [|done].
  destruct (RWMutex_Lock m w6) as [[] w7|]; [|done].
  destruct (Items_insert m name c w7) as [[] w8|]; [|done].
  by destruct (RWMutex_Unlock m w8) as [[] w9|].
Qed.

End Properties.

(** * Handlers that write to the record *)

Section Writing.

Context {V : Type}.
Implicit Types (w : World (Log * V)) (l : loc) (lg : Logger) (log : Log)
  (hs : list (Handler (Log * V))) (o : Log * V) (rs : list Log).

Lemma handled_loop_by_run hs : ∀ i w,
  ∃ (b : bool) o' rs,
    handled_loop_by i hs w
    = Ok b (advance w (loggers w) (poolChoices w) o' (handler_calls_with i rs))
    ∧ Ran hs (outside w) b o' rs.
Proof.
  induction hs as [|h hs IH]; intros i w.
  - exists false, (outside w), []. split; [|constructor].
    cbn. unfold ret. by rewrite advance_nothing.
  - cbn. unfold bind, read_record. rewrite call_handler_run.
    destruct (h (outside w).1 (outside w)) as [[|] o1] eqn:Hh; cbn.
    + exists true, o1, [(outside w).1]. split; [done|]. by constructor.
    + destruct (IH (S i) (advance w (loggers w) (poolChoices w) o1
                          [HandlerCall i (outside w).1]))
        as (b & o' & rs & Hrun & Hran).
      exists b, o', ((outside w).1 :: rs). split.
      * rewrite Hrun. cbn. by rewrite advance_advance.
      * econstructor; [exact Hh|exact Hran].
Qed.

Lemma Ran_run_chain hs : ∀ o (b : bool) o' rs,
  Ran hs o b o' rs ↔ run_chain hs o = (b, o', rs).
Proof.
  induction hs as [|h hs IH]; intros o b o' rs; split.
  - intros Hr. by inversion Hr.
  - intros [= <- <- <-]. constructor.
  - intros Hr. inversion Hr as [|? ? ? ? Hc|? ? ? ? ? ? ? Hc Hnext]; subst; cbn.
    + by rewrite Hc.
    + rewrite Hc. apply IH in Hnext. by rewrite Hnext.
  - cbn. destruct (h o.1 o) as [[|] o1] eqn:Hc.
    + intros [= <- <- <-]. by constructor.
    + destruct (run_chain hs o1) as [[b' o2] rs'] eqn:Hrun.
      intros [= <- <- <-]. econstructor; [exact Hc|]. by apply IH.
Qed.

Lemma Ran_length hs : ∀ o (b : bool) o' rs,
  Ran hs o b o' rs →
  (length rs ≤ length hs)%nat
  ∧ (b = false → length rs = length hs)
  ∧ (b = true → (0 < length rs)%nat)
  ∧ (∀ r, head rs = Some r → r = o.1).
Proof.
  induction hs as [|h hs IH]; intros o b o' rs Hr;
    inversion Hr as [|? ? ? ? Hh|? ? ? ? ? ? ? Hh Hrest]; subst; cbn.
  - repeat split; try done; lia.
  - repeat split; try done; try lia. by intros r [= <-].
  - destruct (IH _ _ _ _ Hrest) as (Hle & Hf & Ht & _).
    repeat split; try lia.
    + intros Hb. by rewrite Hf.
    + by intros r [= <-].
Qed.

Lemma Ran_reads_only hs : ∀ o (b : bool) o' rs,
  Forall reads_only hs →
  Ran hs o b o' rs →
  rs = replicate (length rs) o.1 ∧ o'.1 = o.1.
Proof.
  induction hs as [|h hs IH]; intros o b o' rs Hall Hr;
    inversion Hr as [|? ? ? ? Hc|? ? ? ? ? ? ? Hc Hnext]; subst; cbn.
  - done.
  - inversion Hall as [|? ? Hh _]; subst. split; [done|].
    specialize (Hh o.1 o). by rewrite Hc in Hh.
  - inversion Hall as [|? ? Hh Hrest]; subst.
    specialize (Hh o.1 o). rewrite Hc in Hh. cbn in Hh.
    destruct (IH _ _ _ _ Hrest Hnext) as (Hrs & Ho). rewrite Hh in Hrs, Ho.
    split; [by rewrite <- Hrs|done].
Qed.

Lemma Ran_keeps_NewLine hs : ∀ o (b : bool) o' rs,
  Forall keeps_NewLine hs →
  Ran hs o b o' rs →
  Log_NewLine o'.1 = Log_NewLine o.1.
Proof.
  induction hs as [|h hs IH]; intros o b o' rs Hall Hr;
    inversion Hr as [|? ? ? ? Hc|? ? ? ? ? ? ? Hc Hnext]; subst; cbn.
  - done.
  - inversion Hall as [|? ? Hh _]; subst.
    specialize (Hh o.1 o). by rewrite Hc in Hh.
  - inversion Hall as [|? ? Hh Hrest]; subst.
    specialize (Hh o.1 o). rewrite Hc in Hh. cbn in Hh.
    rewrite (IH _ _ _ _ Hrest Hnext). done.
Qed.

Lemma sink_ops_handler_calls_with rs : ∀ i, sink_ops (handler_calls_with i rs) = [].
Proof.
  induction rs as [|r rs IH]; intros i; [done|].
  change (handler_calls_with i (r :: rs))
    with (HandlerCall i r :: handler_calls_with (S i) rs).
  unfold sink_ops. rewrite filter_cons_False by done. apply IH.
Qed.

Lemma pool_puts_handler_calls_with rs : ∀ i, pool_puts (handler_calls_with i rs) = [].
Proof.
  induction rs as [|r rs IH]; intros i; [done|].
  change (handler_calls_with i (r :: rs))
    with (HandlerCall i r :: handler_calls_with (S i) rs).
  unfold pool_puts. rewrite filter_cons_False by done. apply IH.
Qed.

(** One call of [print_by] that passes the filter, step by step. *)
Lemma print_by_pass w l lg level msg nl :
  loggers w !! l = Some lg →
  (level ≤ Logger_Level lg)%N →
  ∃ got q (h : bool) o' rs,
    let log := acquired l got (clock w) level msg nl in
    acquireLog l level msg nl w
    = Ok log (advance w (<[l := with_logs lg q]> (loggers w))
                (tail (poolChoices w)) (outside w) [PoolGet l got])
    ∧ Ran (slice_elems w (handlers lg)) (log, (outside w).2) h o' rs
    ∧ print_by l level msg nl w
      = Ok tt (advance w (<[l := with_logs lg (o'.1 :: q)]> (loggers w))
                 (tail (poolChoices w)) o'
                 ([PoolGet l got] ++ handler_calls_with 0 rs
                  ++ (if h then [] else [sink_op (Printer lg) nl o'.1])
                  ++ [PoolPut l o'.1])).
Proof.
  intros Hl Hle.
  destruct (acquireLog_run w l lg level msg nl Hl) as (got & q & Ha & _).
  set (log := acquired l got (clock w) level msg nl) in *.
  set (wp := advance w (<[l := with_logs lg q]> (loggers w))
               (tail (poolChoices w)) (log, (outside w).2) [PoolGet l got]).
  destruct (handled_loop_by_run (slice_elems w (handlers lg)) 0 wp)
    as (h & o' & rs & Hh & Hran).
  exists got, q, h, o', rs. cbn zeta. split; [done|]. split; [done|].
  unfold print_by. unfold bind at 1. unfold deref at 1. rewrite Hl.
  apply N.leb_le in Hle. rewrite Hle.
  unfold bind at 1. fold log. rewrite Ha.
  unfold bind at 1. unfold place_record at 1.
  change (set_outside _ _) with wp.
  unfold bind at 1. unfold handled_by, bind at 1, deref at 1.
  replace (loggers wp !! l) with (Some (with_logs lg q))
    by (subst wp; cbn; by rewrite lookup_insert_eq).
  unfold bind at 1, get_world at 1.
  change (slice_elems wp (handlers (with_logs lg q)))
    with (slice_elems w (handlers lg)).
  rewrite Hh.
  unfold bind at 1, read_record at 1.
  unfold releaseLog, Pool_Put.
  destruct h; cbn; run.
  - rewrite lookup_insert_eq. cbn. unfold advance, set_loggers; cbn.
    rewrite insert_insert_eq. do 2 f_equal.
    by rewrite <- !app_assoc.
  - rewrite lookup_insert_eq. cbn.
    destruct nl; cbn; run; rewrite lookup_insert_eq; cbn;
      unfold advance, set_loggers; cbn;
      rewrite insert_insert_eq; do 2 f_equal;
      by rewrite <- !app_assoc.
Qed.

(** Handlers that only read the record: [print_by] does what [print] does,
    step for step. *)
Lemma slice_elems_with_record (r : Log) (w0 : World V) (s : slice) :
  slice_elems (with_record r w0) s = reading <$> slice_elems w0 s.
Proof.
  unfold slice_elems, with_record; cbn. rewrite lookup_fmap.
  destruct (arrays w0 !! slice_array s); cbn; [by rewrite fmap_take|].
  by rewrite !take_nil.
Qed.

Lemma handled_loop_by_reading (gs : list (Handler V)) : ∀ i (r : Log) (w0 : World V),
  handled_loop_by i (reading <$> gs) (with_record r w0)
  = result_with_record r (handled_loop i gs r w0).
Proof.
  induction gs as [|g gs IH]; intros i r w0; [done|].
  cbn. unfold bind, read_record. rewrite !call_handler_run. cbn.
  destruct (g r (outside w0)) as [[|] o1]; cbn; [done|].
  apply (IH (S i) r (advance w0 (loggers w0) (poolChoices w0) o1 [HandlerCall i r])).
Qed.

Lemma acquireLog_with_record (r : Log) (w0 : World V) l level msg nl :
  acquireLog l level msg nl (with_record r w0)
  = result_with_record r (acquireLog l level msg nl w0).
Proof.
  unfold acquireLog, Pool_Get. run.
  destruct (loggers w0 !! l) as [lg|]; [|done]. cbn.
  destruct (poolChoices w0) as [|[k|] cs]; cbn; try done.
  destruct (logs lg !! k); done.
Qed.

Lemma deref_with_record (r : Log) (w0 : World V) l :
  deref l (with_record r w0) = result_with_record r (deref l w0).
Proof. unfold deref; cbn. by destruct (loggers w0 !! l). Qed.

Lemma handled_by_reading (r : Log) (w0 : World V) l :
  handled_by l (with_record r w0) = result_with_record r (handled l r w0).
Proof.
  unfold handled_by, handled, bind. rewrite deref_with_record.
  destruct (deref l w0) as [lg w1|f w1] eqn:Hd; [|done].
  assert (w1 = w0) as ->
    by (unfold deref in Hd; destruct (loggers w0 !! l); by simplify_eq).
  cbn. rewrite slice_elems_with_record. apply handled_loop_by_reading.
Qed.

(** The end of [print]: the call into the printer, if any, and the return
    of the record to the pool. *)
Lemma print_end_with_record (r : Log) (w0 : World V) l (h nl : bool) :
  bind (if negb h
        then bind (deref l)
               (λ lg', if nl then Printer_Println (Printer lg') r
                       else Printer_Print (Printer lg') r)
        else ret tt)
    (λ _, releaseLog l r) (with_record r w0)
  = result_with_record r
      (bind (if negb h
             then bind (deref l)
                    (λ lg', if nl then Printer_Println (Printer lg') r
                            else Printer_Print (Printer lg') r)
             else ret tt)
         (λ _, releaseLog l r) w0).
Proof.
  unfold releaseLog, Pool_Put, Printer_Println, Printer_Print.
  destruct h; cbn; run.
  - destruct (loggers w0 !! l); done.
  - destruct (loggers w0 !! l); [|done]. cbn.
    destruct nl; cbn; destruct (loggers w0 !! l); done.
Qed.

Lemma print_by_reading (w0 : World V) l level msg nl (r0 : Log) :
  ∃ r,
    print_by l level msg nl (with_record r0 w0)
    = result_with_record r (print l level msg nl w0).
Proof.
  assert (Hby : ∀ w,
    print_by l level msg nl w
    = match deref l w with
      | Ok lg w1 =>
          if (level <=? Logger_Level lg)%N then
            match acquireLog l level msg nl w1 with
            | Ok log wa =>
                match handled_by l (set_outside (log, (outside wa).2) wa) with
                | Ok h wh =>
                    bind (if negb h
                          then bind (deref l)
                                 (λ lg', if nl
                                         then Printer_Println (Printer lg') (outside wh).1
                                         else Printer_Print (Printer lg') (outside wh).1)
                          else ret tt)
                      (λ _, releaseLog l (outside wh).1) wh
                | Fail f wh => Fail f wh
                end
            | Fail f wa => Fail f wa
            end
          else Ok tt w1
      | Fail f w1 => Fail f w1
      end).
  { intros w. unfold print_by. unfold bind at 1.
    destruct (deref l w) as [lg w1|]; [|done].
    destruct (level <=? Logger_Level lg)%N; [|done].
    unfold bind at 1. destruct (acquireLog l level msg nl w1) as [log wa|]; [|done].
    unfold bind at 1. unfold place_record at 1. unfold bind at 1.
    destruct (handled_by l _) as [h wh|]; done. }
  assert (Hval : ∀ w : World V,
    print l level msg nl w
    = match deref l w with
      | Ok lg w1 =>
          if (level <=? Logger_Level lg)%N then
            match acquireLog l level msg nl w1 with
            | Ok log wa =>
                match handled l log wa with
                | Ok h wh =>
                    bind (if negb h
                          then bind (deref l)
                                 (λ lg', if nl
                                         then Printer_Println (Printer lg') log
                                         else Printer_Print (Printer lg') log)
                          else ret tt)
                      (λ _, releaseLog l log) wh
                | Fail f wh => Fail f wh
                end
            | Fail f wa => Fail f wa
            end
          else Ok tt w1
      | Fail f w1 => Fail f w1
      end).
  { intros w. unfold print. unfold bind at 1.
    destruct (deref l w) as [lg w1|]; [|done].
    destruct (level <=? Logger_Level lg)%N; [|done].
    unfold bind at 1. destruct (acquireLog l level msg nl w1) as [log wa|]; [|done].
    unfold bind at 1. destruct (handled l log wa) as [h wh|]; done. }
  rewrite Hby, Hval, deref_with_record.
  destruct (deref l w0) as [lg w1|f w1]; [|by exists r0].
  unfold result_with_record at 1.
  destruct (level <=? Logger_Level lg)%N; [|by exists r0].
  rewrite acquireLog_with_record.
  destruct (acquireLog l level msg nl w1) as [log wa|f wa]; [|by exists r0].
  exists log. unfold result_with_record at 1.
  change (set_outside _ (with_record r0 wa)) with (with_record log wa).
  rewrite handled_by_reading.
  destruct (handled l log wa) as [h wh|f wh]; [|done].
  unfold result_with_record at 1.
  change (outside (with_record log wh)).1 with log.
  apply print_end_with_record.
Qed.

(** C10.  [Log], [Logf], [Error], [Errorf], [Warn], [Warnf], [Info],
    [Infof], [Debug] and [Debugf] call [print] with the newline flag set, so
    does [Println], and [Print] calls it with the flag cleared; this is so
    whether or not handlers write to the record.  When a call passes the
    filter and no handler reports the record handled, [print] calls the
    printer's [Println] exactly when the call asked for a newline, and its
    [Print] otherwise, with the record as the handlers left it.  What the
    call asked for is the newline flag [acquireLog] gave the record; it is
    the flag of the record printed when every handler of the chain leaves
    that flag alone. *)
Theorem print_methods_newline {any} (Sprint : list any → string)
    (Sprintf : string → list any → string) (any_of_string : string → any)
    w l lg :
  loggers w !! l = Some lg →
  (∀ level v,
       Log_by (V:=V) Sprint l level v = print_by l level (Sprint v) true
       ∧ Log_ (W:=Log * V) Sprint l level v = print l level (Sprint v) true)
  ∧ (∀ level f args,
       Logf_by (V:=V) Sprint Sprintf any_of_string l level f args = print_by l level (Sprint [any_of_string (Sprintf f args)]) true
       ∧ Logf (W:=Log * V) Sprint Sprintf any_of_string l level f args = print l level (Sprint [any_of_string (Sprintf f args)]) true)
  ∧ (∀ v,
       Error_by (V:=V) Sprint l v = print_by l ErrorLevel (Sprint v) true
       ∧ Error (W:=Log * V) Sprint l v = print l ErrorLevel (Sprint v) true)
  ∧ (∀ f args,
       Errorf_by (V:=V) Sprint Sprintf any_of_string l f args = print_by l ErrorLevel (Sprint [any_of_string (Sprintf f args)]) true
       ∧ Errorf (W:=Log * V) Sprint Sprintf any_of_string l f args = print l ErrorLevel (Sprint [any_of_string (Sprintf f args)]) true)
  ∧ (∀ v,
       Warn_by (V:=V) Sprint l v = print_by l WarnLevel (Sprint v) true
       ∧ Warn (W:=Log * V) Sprint l v = print l WarnLevel (Sprint v) true)
  ∧ (∀ f args,
       Warnf_by (V:=V) Sprint Sprintf any_of_string l f args = print_by l WarnLevel (Sprint [any_of_string (Sprintf f args)]) true
       ∧ Warnf (W:=Log * V) Sprint Sprintf any_of_string l f args = print l WarnLevel (Sprint [any_of_string (Sprintf f args)]) true)
  ∧ (∀ v,
       Info_by (V:=V) Sprint l v = print_by l InfoLevel (Sprint v) true
       ∧ Info (W:=Log * V) Sprint l v = print l InfoLevel (Sprint v) true)
  ∧ (∀ f args,
       Infof_by (V:=V) Sprint Sprintf any_of_string l f args = print_by l InfoLevel (Sprint [any_of_string (Sprintf f args)]) true
       ∧ Infof (W:=Log * V) Sprint Sprintf any_of_string l f args = print l InfoLevel (Sprint [any_of_string (Sprintf f args)]) true)
  ∧ (∀ v,
       Debug_by (V:=V) Sprint l v = print_by l DebugLevel (Sprint v) true
       ∧ Debug (W:=Log * V) Sprint l v = print l DebugLevel (Sprint v) true)
  ∧ (∀ f args,
       Debugf_by (V:=V) Sprint Sprintf any_of_string l f args = print_by l DebugLevel (Sprint [any_of_string (Sprintf f args)]) true
       ∧ Debugf (W:=Log * V) Sprint Sprintf any_of_string l f args = print l DebugLevel (Sprint [any_of_string (Sprintf f args)]) true)
  ∧ (∀ v,
       Println_by (V:=V) Sprint l v = print_by l DisableLevel (Sprint v) true
       ∧ Println (W:=Log * V) Sprint l v = print l DisableLevel (Sprint v) true)
  ∧ (∀ v,
       Print_by (V:=V) Sprint l v = print_by l DisableLevel (Sprint v) false
       ∧ Print (W:=Log * V) Sprint l v = print l DisableLevel (Sprint v) false)
  ∧ (∀ level msg nl,
       (level ≤ Logger_Level lg)%N →
       ∃ log wa (h : bool) o' rs,
         acquireLog l level msg nl w = Ok log wa
         ∧ Log_NewLine log = nl
         ∧ Ran (chain_of w l) (log, (outside w).2) h o' rs
         ∧ (h = false →
            sink_ops (call_events w (print_by l level msg nl w))
            = [if nl then PrinterPrintln (Printer lg) o'.1
               else PrinterPrint (Printer lg) o'.1])
         ∧ (Forall keeps_NewLine (chain_of w l) → Log_NewLine o'.1 = nl)).
Proof.
  intros Hl. repeat (split; [done|]).
  intros level msg nl Hle.
  destruct (print_by_pass w l lg level msg nl Hl Hle)
    as (got & q & h & o' & rs & Ha & Hran & Hp).
  cbn zeta in *.
  assert (Hc : chain_of w l = slice_elems w (handlers lg))
    by (unfold chain_of; by rewrite Hl).
  rewrite Hc.
  eexists _, _, h, o', rs. split; [exact Ha|]. split; [done|].
  split; [exact Hran|]. split.
  - intros ->. rewrite Hp, call_events_advance.
    unfold sink_ops. rewrite !filter_app.
    fold (sink_ops (handler_calls_with 0 rs)).
    rewrite sink_ops_handler_calls_with. by destruct nl.
  - intros Hall. by rewrite (Ran_keeps_NewLine _ _ _ _ _ Hall Hran).
Qed.

End Writing.

(** C4.  Two goroutines make the first request for the child "db" of the
    same parent, and both look the name up before either stores its child.
    Each clones the parent and stores its clone: the first goroutine returns
    the Logger at 2, the second the Logger at 3, and the registry keeps the
    one stored last.  Two children were created and the callers hold
    different instances.  (When the first goroutine returns before the second
    starts, both get the Logger at 2.) *)
Theorem getOrAdd_race_two_children :
  let raced := run_schedule racing_schedule two_first_requests in
  let calm := run_schedule one_after_the_other two_first_requests in
  g_result <$> raced.1 = [Some 2%positive; Some 3%positive]
  ∧ (loggerMaps raced.2 !! 1%positive) ≫= (λ lm, Items lm !! "db") = Some 3%positive
  ∧ Prefix <$> loggers raced.2 !! 2%positive = Some (list_byte_of_string "db: ")
  ∧ Prefix <$> loggers raced.2 !! 3%positive = Some (list_byte_of_string "db: ")
  ∧ g_result <$> calm.1 = [Some 2%positive; Some 2%positive]
  ∧ (loggerMaps calm.2 !! 1%positive) ≫= (λ lm, Items lm !! "db") = Some 2%positive.
Proof. cbv zeta. repeat split; vm_compute; reflexivity. Qed.

(** * The statements at concrete inputs *)




(** C3, as stated, fails for an empty message: the space after the level tag
    stays at the end of the line, where the spec has none. *)
Lemma logHijacker_trailing_space :
  let w := scene InfoLevel "" [] [] [] in
  let log := info_record "" in
  ∃ b,
    logHijacker (any:=unit) (λ _ f, f) (λ _ tag, tag) (ValueLog log) false w
    = Ok (Some b) w
    ∧ b = list_byte_of_string "svc: INFO "
    ∧ spec_render (list_byte_of_string "svc: ") "INFO" "" "" = list_byte_of_string "svc: INFO"
    ∧ b ≠ spec_render (Prefix (svc 0 InfoLevel "" []))
            (GetTextForLevel (λ _ tag, tag) (Log_Level log) false) "" (Log_Message log).
Proof.
  cbv zeta. eexists. split; [vm_compute; reflexivity|].
  split; [reflexivity|]. split; [reflexivity|].
  vm_compute. discriminate.
Qed.

(** The line of the spec's example. *)
Lemma logHijacker_renders_witness :
  let w := scene InfoLevel "" [] [] [] in
  let log := info_record "ready" in
  loggers w !! Log_Logger log = Some (svc 0 InfoLevel "" [])
  ∧ logHijacker (any:=unit) (λ _ f, f) (λ _ tag, tag) (ValueLog log) false w
    = Ok (Some (list_byte_of_string "svc: INFO ready")) w.
Proof.
  cbv zeta. split; [reflexivity|].
  apply (logHijacker_renders (any:=unit) (λ _ f, f) (λ _ tag, tag)
           (scene InfoLevel "" [] [] []) (info_record "ready")
           (svc 0 InfoLevel "" []) false eq_refl);
    reflexivity.
Defined.


(** The stale record of an earlier emission is handed out again. *)
Lemma acquireLog_overwrites_witness :
  let w := scene InfoLevel "" [] [stale] [Some 0%nat] in
  loggers w !! 1%positive = Some (svc 0 InfoLevel "" [stale])
  ∧ ∃ log w' got,
      acquireLog 1%positive InfoLevel "ready" true w = Ok log w'
      ∧ call_events w (acquireLog 1%positive InfoLevel "ready" true w)
        = [PoolGet 1%positive got]
      ∧ (got = None ∨ ∃ x, got = Some x ∧ x ∈ logs (svc 0 InfoLevel "" [stale]))
      ∧ Log_Level log = InfoLevel
      ∧ Log_Message log = "ready"
      ∧ Log_Time log = clock w
      ∧ Log_NewLine log = true.
Proof.
  cbv zeta. split; [reflexivity|].
  apply (acquireLog_overwrites (scene InfoLevel "" [] [stale] [Some 0%nat])
           1%positive (svc 0 InfoLevel "" [stale]) InfoLevel "ready" true eq_refl).
Defined.

(** C6, as stated, fails for a name that ends in a tab: the name ends in
    white space, yet the child's prefix is the name followed by ": ".  It
    also fails for the empty name, a first request that stores no child at
    all. *)
Lemma getOrAdd_tab_gets_separator :
  let w := scene InfoLevel "" [] [] [] in
  let name := "db" ++ String tab "" in
  (spec_ends_in_whitespace name = true
   ∧ spec_child_prefix name = name
   ∧ ∃ c w' lc,
       getOrAdd 1%positive name 1%positive w = Ok c w'
       ∧ loggers w' !! c = Some lc
       ∧ Prefix lc = list_byte_of_string (name ++ ": ")
       ∧ Prefix lc ≠ list_byte_of_string (spec_child_prefix name))
  ∧ (spec_ends_in_whitespace "" = false
     ∧ ∃ w',
         getOrAdd 1%positive "" 1%positive w = Fail IndexOutOfRange w'
         ∧ (loggerMaps w' !! 1%positive) ≫= (λ lm, Items lm !! "") = None).
Proof.
  cbv zeta. split.
  - split; [reflexivity|]. split; [reflexivity|].
    eexists _, _, _. split; [vm_compute; reflexivity|].
    split; [vm_compute; reflexivity|].
    split; [vm_compute; reflexivity|].
    vm_compute. discriminate.
  - split; [reflexivity|].
    eexists. split; [vm_compute; reflexivity|]. vm_compute. reflexivity.
Qed.

(** The children "db" and "db " of the logger at 1. *)
Lemma getOrAdd_child_prefix_witness :
  let w := scene InfoLevel "" [] [] [] in
  (loggers w !! 1%positive = Some (svc 0 InfoLevel "" [])
   ∧ loggerMaps w !! 1%positive = Some {| loggerMap_mu := free_lock; Items := ∅ |}
   ∧ "db" ≠ "" ∧ "db " ≠ "")
  ∧ (∃ c w' lc,
       getOrAdd 1%positive "db" 1%positive w = Ok c w'
       ∧ loggers w' !! c = Some lc
       ∧ Prefix lc = list_byte_of_string "db: ")
  ∧ (∃ c w' lc,
       getOrAdd 1%positive "db " 1%positive w = Ok c w'
       ∧ loggers w' !! c = Some lc
       ∧ Prefix lc = list_byte_of_string "db ").
Proof.
  cbv zeta.
  assert (H1 : "db" ≠ "") by discriminate.
  assert (H2 : "db " ≠ "") by discriminate.
  split; [by repeat split|]. split.
  - destruct (getOrAdd_child_prefix (scene InfoLevel "" [] [] []) 1%positive "db"
                1%positive (svc 0 InfoLevel "" [])
                {| loggerMap_mu := free_lock; Items := ∅ |}
                eq_refl eq_refl eq_refl eq_refl H1)
      as (c & w' & lc & lm' & Hrun & _ & _ & _ & Hc & Hpre).
    exists c, w', lc. split; [exact Hrun|]. split; [exact Hc|exact Hpre].
  - destruct (getOrAdd_child_prefix (scene InfoLevel "" [] [] []) 1%positive "db "
                1%positive (svc 0 InfoLevel "" [])
                {| loggerMap_mu := free_lock; Items := ∅ |}
                eq_refl eq_refl eq_refl eq_refl H2)
      as (c & w' & lc & lm' & Hrun & _ & _ & _ & Hc & Hpre).
    exists c, w', lc. split; [exact Hrun|]. split; [exact Hc|exact Hpre].
Defined.

(** [Child("")] on the logger at 1. *)
Lemma Child_empty_name_panics_witness :
  let w := scene InfoLevel "" [] [] [] in
  (loggers w !! 1%positive = Some (svc 0 InfoLevel "" [])
   ∧ loggerMaps w !! 1%positive = Some {| loggerMap_mu := free_lock; Items := ∅ |})
  ∧ ∃ w',
      Child 1%positive "" w = Fail IndexOutOfRange w'
      ∧ loggerMaps w' !! 1%positive = Some {| loggerMap_mu := free_lock; Items := ∅ |}
      ∧ loggers w' !! 1%positive = Some (svc 0 InfoLevel "" []).
Proof.
  cbv zeta. split; [by split|].
  apply (Child_empty_name_panics (scene InfoLevel "" [] [] []) 1%positive
           (svc 0 InfoLevel "" []) {| loggerMap_mu := free_lock; Items := ∅ |}
           eq_refl eq_refl eq_refl eq_refl).
Defined.

(** A clone of the logger at 1, then a new prefix for the clone or for the
    parent. *)
Lemma Clone_independent_witness :
  let w := scene InfoLevel "" [declining] [stale] [] in
  (loggers w !! 1%positive = Some (svc 1 InfoLevel "" [stale])
   ∧ mu (svc 1 InfoLevel "" [stale]) = false)
  ∧ ∃ c w1 w2 w3 lc,
      Clone 1%positive w = Ok c w1
      ∧ c ≠ 1%positive
      ∧ loggers w1 !! c = Some lc
      ∧ Prefix lc = list_byte_of_string "svc: "
      ∧ handlers lc = handlers (svc 1 InfoLevel "" [stale])
      ∧ logs lc = []
      ∧ SetPrefix c "db: " w1 = Ok c w2
      ∧ Prefix <$> loggers w2 !! 1%positive = Some (list_byte_of_string "svc: ")
      ∧ SetPrefix 1%positive "api: " w1 = Ok 1%positive w3
      ∧ Prefix <$> loggers w3 !! c = Some (list_byte_of_string "svc: ").
Proof.
  cbv zeta. split; [by split|].
  destruct (Clone_independent (scene InfoLevel "" [declining] [stale] []) 1%positive
              (svc 1 InfoLevel "" [stale]) eq_refl)
    as (c & w1 & lc & Hrun & Hne & _ & _ & Hc & Hpre & _ & _ & _ & Hh & _ & _ & Hlogs
        & _ & _ & _ & Hchild & Hparent & _).
  destruct (Hchild "db: ") as (w2 & Hset2 & Hp2 & _).
  destruct (Hparent "api: " eq_refl) as (w3 & Hset3 & Hc3 & _).
  unfold loc in *. exists c, w1, w2, w3, lc.
  split; [exact Hrun|]. split; [exact Hne|]. split; [exact Hc|].
  split; [exact Hpre|]. split; [exact Hh|]. split; [exact Hlogs|].
  split; [exact Hset2|]. split; [by rewrite Hp2|].
  split; [exact Hset3|]. rewrite Hc3. cbn. by rewrite Hpre.
Defined.

(** [Println] on a logger whose only handler clears the newline flag of the
    record and declines: the printer's [Println] is called, with a record
    whose newline flag is false; no record has the flag that selects the
    call made on it. *)
Lemma print_newline_flag_cleared :
  let w := scene_by InfoLevel [clearing] [] [] in
  let Sprint := λ v : list string, String.concat " " v in
  let line nl := acquired 1%positive None 1700000000%Z DisableLevel "ready" nl in
  call_events w (Println_by Sprint 1%positive ["ready"] w)
  = [PoolGet 1%positive None; HandlerCall 0 (line true);
     PrinterPrintln 7%positive (line false); PoolPut 1%positive (line false)]
  ∧ Log_NewLine (line false) = false
  ∧ ¬ ∃ r, sink_ops (call_events w (Println_by Sprint 1%positive ["ready"] w))
           = [if Log_NewLine r then PrinterPrintln 7%positive r
              else PrinterPrint 7%positive r].
Proof.
  cbv zeta. split; [vm_compute; reflexivity|]. split; [reflexivity|].
  intros [r Hr]. vm_compute in Hr.
  destruct r as [lr tr vr mr [|]]; cbn in Hr; [|discriminate].
  injection Hr as _ _ _ _ Hflag. discriminate.
Qed.

(** [Println] and [Print] on a logger whose only handler reads the record
    and declines. *)
Lemma print_methods_newline_witness :
  let w := scene_by InfoLevel [reading declining] [] [] in
  let Sprint := λ v : list string, String.concat " " v in
  let Sprintf := λ (f : string) (args : list string), f ++ String.concat " " args in
  let line nl := acquired 1%positive None 1700000000%Z DisableLevel "ready" nl in
  (loggers w !! 1%positive = Some (svc 1 InfoLevel "" [])
   ∧ (DisableLevel ≤ InfoLevel)%N
   ∧ Forall keeps_NewLine (chain_of w 1%positive))
  ∧ sink_ops (call_events w (Println_by Sprint 1%positive ["ready"] w))
    = [PrinterPrintln 7%positive (line true)]
  ∧ Log_NewLine (line true) = true
  ∧ sink_ops (call_events w (Print_by Sprint 1%positive ["ready"] w))
    = [PrinterPrint 7%positive (line false)]
  ∧ Infof_by (V:=list string) Sprint Sprintf id 1%positive "up %v" ["now"]
    = print_by 1%positive InfoLevel (Sprint [Sprintf "up %v" ["now"]]) true.
Proof.
  cbv zeta.
  assert (Hle : (DisableLevel ≤ InfoLevel)%N) by (vm_compute; discriminate).
  destruct (print_methods_newline (λ v : list string, String.concat " " v)
              (λ (f : string) (args : list string), f ++ String.concat " " args) id
              (scene_by InfoLevel [reading declining] [] []) 1%positive
              (svc 1 InfoLevel "" []) eq_refl)
    as (_ & _ & _ & _ & _ & _ & _ & Hinfof & _ & _ & Hprintln & Hprint & Hsink).
  assert (Hall : Forall keeps_NewLine
                   (chain_of (scene_by InfoLevel [reading declining] [] []) 1%positive)).
  { change (Forall keeps_NewLine [reading declining]).
    constructor; [|constructor]. by intros r o. }
  split; [by repeat split|]. split; [|split; [|split]].
  - destruct (Hprintln ["ready"]) as [-> _].
    destruct (Hsink DisableLevel "ready" true Hle)
      as (log & wa & h & o' & rs & Ha & _ & Hran & Hs & _).
    vm_compute in Ha. injection Ha as <- <-.
    apply Ran_run_chain in Hran. vm_compute in Hran. injection Hran as <- <- <-.
    exact (Hs eq_refl).
  - destruct (Hsink DisableLevel "ready" true Hle)
      as (log & wa & h & o' & rs & Ha & _ & Hran & _ & Hk).
    vm_compute in Ha. injection Ha as <- <-.
    apply Ran_run_chain in Hran. vm_compute in Hran. injection Hran as <- <- <-.
    exact (Hk Hall).
  - destruct (Hprint ["ready"]) as [-> _].
    destruct (Hsink DisableLevel "ready" false Hle)
      as (log & wa & h & o' & rs & Ha & _ & Hran & Hs & _).
    vm_compute in Ha. injection Ha as <- <-.
    apply Ran_run_chain in Hran. vm_compute in Hran. injection Hran as <- <- <-.
    exact (Hs eq_refl).
  - apply (Hinfof "up %v" ["now"]).
Defined.

(** * Further properties: registration, configuration, children, the pool *)

Section Further.

Context {W : Type}.
Implicit Types (w : World W) (l p m : loc) (lg : Logger) (value log : Log)
  (hs : list (Handler W)) (h : Handler W) (o : W).

(** ** [Handle] *)

Lemma write_take (a : list (Handler W)) n h :
  (n ≤ length a)%nat →
  take (S n) (take n a ++ h :: drop (S n) a) = (take n a ++ [h])%list.
Proof.
  intros Hn. replace (S n) with (length (take n a) + 1)%nat
    by (rewrite length_take; lia).
  by rewrite take_app_add.
Qed.

Lemma write_take_below (a : list (Handler W)) n h :
  (n ≤ length a)%nat →
  take n (take n a ++ h :: drop (S n) a) = take n a.
Proof.
  intros Hn. apply take_app_length'. rewrite length_take. lia.
Qed.

Lemma write_write (a : list (Handler W)) n h1 h2 :
  (n ≤ length a)%nat →
  (take n (take n a ++ h1 :: drop (S n) a)
   ++ h2 :: drop (S n) (take n a ++ h1 :: drop (S n) a))%list
  = (take n a ++ h2 :: drop (S n) a)%list.
Proof.
  intros Hn. rewrite write_take_below by done. f_equal. f_equal.
  assert (Hl : length (take n a) = n) by (rewrite length_take; lia).
  rewrite drop_app_ge by lia. rewrite Hl.
  replace (S n - n)%nat with 1%nat by lia. done.
Qed.


(** [Handle] when the slice has room: the array is written in place. *)
Lemma Handle_roomy (growslice : nat → nat) w l lg h :
  loggers w !! l = Some lg →
  mu lg = false →
  (slice_len (handlers lg) < slice_cap (handlers lg))%nat →
  Handle growslice l h w
  = Ok tt
      (set_arrays
         <[slice_array (handlers lg) :=
             (take (slice_len (handlers lg)) (default [] (arrays w !! slice_array (handlers lg)))
              ++ h :: drop (S (slice_len (handlers lg)))
                        (default [] (arrays w !! slice_array (handlers lg))))%list]>
         (set_loggers
            <[l := with_handlers lg
                     {| slice_array := slice_array (handlers lg);
                        slice_len := S (slice_len (handlers lg));
                        slice_cap := slice_cap (handlers lg) |}]> w)).
Proof.
  intros Hl Hmu Hroom. unfold Handle, Mutex_Lock, Mutex_Unlock, slice_append. run.
  rewrite Hl, Hmu. cbn. rewrite lookup_insert_eq. cbn.
  destruct (decide _) as [_|]; [|done]. cbn.
  rewrite lookup_insert_eq. cbn. unfold set_arrays, set_loggers; cbn.
  rewrite !insert_insert_eq. do 3 f_equal.
  destruct lg; cbn in *. by subst.
Qed.

(** [Handle] when the slice is full: a new array is allocated. *)
Lemma Handle_full (growslice : nat → nat) w l lg h :
  loggers w !! l = Some lg →
  mu lg = false →
  ¬ (slice_len (handlers lg) < slice_cap (handlers lg))%nat →
  Handle growslice l h w
  = Ok tt
      (set_arrays
         <[fresh (dom (arrays w)) := (slice_elems w (handlers lg) ++ [h])%list]>
         (set_loggers
            <[l := with_handlers lg
                     {| slice_array := fresh (dom (arrays w));
                        slice_len := S (slice_len (handlers lg));
                        slice_cap := max (S (slice_len (handlers lg)))
                                       (growslice (slice_cap (handlers lg))) |}]> w)).
Proof.
  intros Hl Hmu Hfull. unfold Handle, Mutex_Lock, Mutex_Unlock, slice_append. run.
  rewrite Hl, Hmu. cbn. rewrite lookup_insert_eq. cbn.
  destruct (decide _) as [|_]; [done|]. cbn.
  rewrite lookup_insert_eq. cbn. unfold set_arrays, set_loggers; cbn.
  rewrite !insert_insert_eq. do 3 f_equal.
  destruct lg; cbn in *. by subst.
Qed.


Lemma slice_elems_length w (s : slice) :
  slice_backed w s → length (slice_elems w s) = slice_len s.
Proof. unfold slice_backed, slice_elems. intros Hb. rewrite length_take. lia. Qed.





(** X2.  A clone shares the parent's array of handlers.  While the slice has
    room, a handler registered on the parent after the clone is written into
    the shared array, invisible to the clone; a handler then registered on
    the clone is written over it: the parent loses the handler it registered
    and runs the clone's instead. *)
Theorem Handle_after_Clone_shares_array (growslice : nat → nat) w p lg h1 h2 :
  loggers w !! p = Some lg →
  mu lg = false →
  slice_backed w (handlers lg) →
  (slice_len (handlers lg) < slice_cap (handlers lg))%nat →
  ∃ c w1 w2 w3,
    Clone p w = Ok c w1
    ∧ Handle growslice p h1 w1 = Ok tt w2
    ∧ chain_of w2 p = (chain_of w p ++ [h1])%list
    ∧ chain_of w2 c = chain_of w p
    ∧ Handle growslice c h2 w2 = Ok tt w3
    ∧ chain_of w3 c = (chain_of w p ++ [h2])%list
    ∧ chain_of w3 p = (chain_of w p ++ [h2])%list.
Proof.
  intros Hl Hmu Hb Hroom.
  assert (Hcw : chain_of w p = slice_elems w (handlers lg))
    by (unfold chain_of; by rewrite Hl).
  rewrite !Hcw. unfold slice_backed in Hb.
  pose proof (fresh_logger_ne w p lg Hl) as Hne.
  eexists _, _, _, _. split; [by apply Clone_run|].
  split.
  { apply Handle_roomy; [cbn; by rewrite lookup_insert_ne|done|done]. }
  split.
  { unfold chain_of, slice_elems; cbn. rewrite !lookup_insert_eq. cbn.
    by apply write_take. }
  split.
  { unfold chain_of, slice_elems; cbn.
    rewrite lookup_insert_ne, lookup_insert_eq by done. cbn.
    rewrite lookup_insert_eq. cbn. by apply write_take_below. }
  split.
  { apply Handle_roomy; [cbn; rewrite lookup_insert_ne by done; apply lookup_insert_eq
                        |done|done]. }
  split.
  - unfold chain_of, slice_elems; cbn. rewrite !lookup_insert_eq. cbn.
    rewrite write_write by done. by apply write_take.
  - unfold chain_of, slice_elems; cbn.
    rewrite lookup_insert_ne, !lookup_insert_eq by done. cbn.
    rewrite write_write by done. by apply write_take.
Qed.

(** X3.  When the parent's slice is full at the time of the clone, the first
    handler registered afterwards, on either side, moves that side to a new
    array: the parent and the clone then register handlers independently. *)
Theorem Handle_after_Clone_full_independent (growslice : nat → nat) w p lg h1 h2 :
  loggers w !! p = Some lg →
  mu lg = false →
  slice_backed w (handlers lg) →
  ¬ (slice_len (handlers lg) < slice_cap (handlers lg))%nat →
  ∃ c w1 w2 w3,
    Clone p w = Ok c w1
    ∧ Handle growslice p h1 w1 = Ok tt w2
    ∧ chain_of w2 p = (chain_of w p ++ [h1])%list
    ∧ chain_of w2 c = chain_of w p
    ∧ Handle growslice c h2 w2 = Ok tt w3
    ∧ chain_of w3 c = (chain_of w p ++ [h2])%list
    ∧ chain_of w3 p = (chain_of w p ++ [h1])%list.
Proof.
  intros Hl Hmu Hb Hfull.
  assert (Hcw : chain_of w p = slice_elems w (handlers lg))
    by (unfold chain_of; by rewrite Hl).
  rewrite !Hcw.
  pose proof (fresh_logger_ne w p lg Hl) as Hne.
  pose proof (slice_elems_length w _ Hb) as Hlen.
  unfold slice_elems in Hlen |- *.
  assert (Hsame : ∀ (a : loc) (x : Handler W),
    take (slice_len (handlers lg))
      (default []
         (<[a := (take (slice_len (handlers lg))
                    (default [] (arrays w !! slice_array (handlers lg))) ++ [x])%list]>
            (arrays w)
          !! slice_array (handlers lg)))
    = take (slice_len (handlers lg))
        (default [] (arrays w !! slice_array (handlers lg)))).
  { intros a x. destruct (decide (a = slice_array (handlers lg))) as [->|Ha].
    - rewrite lookup_insert_eq. cbn. by apply take_app_length'.
    - by rewrite lookup_insert_ne. }
  eexists _, _, _, _. split; [by apply Clone_run|].
  split.
  { apply Handle_full; [cbn; by rewrite lookup_insert_ne|done|done]. }
  split.
  { unfold chain_of, slice_elems; cbn. rewrite !lookup_insert_eq. cbn.
    apply take_ge. rewrite length_app, Hlen. cbn. lia. }
  split.
  { unfold chain_of, slice_elems; cbn.
    rewrite lookup_insert_ne, lookup_insert_eq by done. cbn. apply Hsame. }
  split.
  { apply Handle_full; [cbn; rewrite lookup_insert_ne by done; apply lookup_insert_eq
                       |done|done]. }
  assert (Hfr : ∀ x : list (Handler W),
    fresh (dom (<[fresh (dom (arrays w)) := x]> (arrays w))) ≠ fresh (dom (arrays w))).
  { intros x He.
    pose proof (is_fresh (dom (<[fresh (dom (arrays w)) := x]> (arrays w)))) as Hf.
    rewrite He in Hf. apply Hf. rewrite dom_insert_L. set_solver. }
  split.
  - unfold chain_of, slice_elems; cbn. rewrite !lookup_insert_eq. cbn.
    rewrite Hsame. apply take_ge. rewrite length_app, Hlen. cbn. lia.
  - unfold chain_of, slice_elems; cbn.
    rewrite lookup_insert_ne, lookup_insert_eq by done. cbn.
    rewrite lookup_insert_ne, lookup_insert_eq by apply Hfr. cbn.
    apply take_ge. rewrite length_app, Hlen. cbn. lia.
Qed.

(** ** [New] and the setters *)

Lemma SetTimeFormat_run w l lg s :
  loggers w !! l = Some lg →
  mu lg = false →
  SetTimeFormat l s w = Ok tt (set_loggers <[l := with_TimeFormat lg s]> w).
Proof.
  intros Hl Hmu. unfold SetTimeFormat, Mutex_Lock, Mutex_Unlock. run.
  rewrite Hl, Hmu. cbn. rewrite lookup_insert_eq. cbn.
  rewrite lookup_insert_eq. cbn. unfold set_loggers; cbn.
  rewrite !insert_insert_eq. do 3 f_equal.
  destruct lg; cbn in *. by subst.
Qed.

Lemma SetLevel_run (fromLevelName : string → Level) w l lg name :
  loggers w !! l = Some lg →
  mu lg = false →
  SetLevel fromLevelName l name w
  = Ok tt (set_loggers <[l := with_Level lg (fromLevelName name)]> w).
Proof.
  intros Hl Hmu. unfold SetLevel, Mutex_Lock, Mutex_Unlock. run.
  rewrite Hl, Hmu. cbn. rewrite lookup_insert_eq. cbn.
  rewrite lookup_insert_eq. cbn. unfold set_loggers; cbn.
  rewrite !insert_insert_eq. do 3 f_equal.
  destruct lg; cbn in *. by subst.
Qed.

(** A call is a no-op exactly when its level is above the threshold. *)
Lemma print_noop_iff w l lg level msg nl :
  loggers w !! l = Some lg →
  print l level msg nl w = Ok tt w ↔ (Logger_Level lg < level)%N.
Proof.
  intros Hl. split.
  - intros Hp. destruct (N.le_gt_cases level (Logger_Level lg)) as [Hle|]; [|done].
    destruct (print_pass w l lg level msg nl Hl Hle)
      as (got & q & h & o & n & _ & _ & _ & Hrun).
    cbn zeta in Hrun. rewrite Hrun in Hp. injection Hp as Hw.
    apply (f_equal trace) in Hw. cbn in Hw.
    rewrite <- (app_nil_r (trace w)) in Hw at 2.
    by apply app_inv_head in Hw.
  - by apply print_filtered.
Qed.

(** X4.  [New] makes a Logger of its own (a new location, the other Loggers
    untouched) that writes to the printer it was given, with no prefix, no
    handler, an empty registry of children, and the threshold Info: a call
    reaches the printer if and only if its level is at most Info. *)
Theorem New_defaults w printer :
  ∃ l w1 lg,
    New printer w = Ok l w1
    ∧ loggers w !! l = None
    ∧ loggers w1 !! l = Some lg
    ∧ Printer lg = printer
    ∧ Prefix lg = []
    ∧ chain_of w1 l = []
    ∧ loggerMaps w !! children lg = None
    ∧ loggerMaps w1 !! children lg = Some {| loggerMap_mu := free_lock; Items := ∅ |}
    ∧ (∀ l', l' ≠ l → loggers w1 !! l' = loggers w !! l')
    ∧ (∀ level msg nl,
         sink_ops (call_events w1 (print l level msg nl w1)) ≠ []
         ↔ (level ≤ InfoLevel)%N).
Proof.
  eexists _, _, _. split; [reflexivity|]. cbn.
  split; [apply fresh_logger|].
  split; [apply lookup_insert_eq|].
  split; [done|]. split; [done|].
  split; [unfold chain_of; cbn; by rewrite lookup_insert_eq|].
  split; [apply fresh_loggerMap|].
  split; [apply lookup_insert_eq|].
  split.
  - intros l' Hne. by rewrite lookup_insert_ne.
  - intros level msg nl.
    match goal with
    | |- context [print _ _ _ _ ?w1] =>
        destruct (print_emits_iff w1 (fresh (dom (loggers w))) _ level msg nl
                    (lookup_insert_eq _ _ _)) as (got & Hiff & _)
    end.
    cbn zeta in Hiff. rewrite Hiff. cbn. split; [by intros [? _]|].
    intros Hle. split; [done|].
    intros (o & n & hs1 & h & hs2 & o1 & Heq & _). by destruct hs1.
Qed.

(** X5.  [SetTimeFormat] changes the TimeFormat of its Logger and nothing
    else, and releases the mutex.  From then on a record of that Logger is
    rendered with its time in the new format, and with no timestamp at all
    when the new format is empty. *)
Theorem SetTimeFormat_renders {any} (time_Format : time_Time → string → string)
    (colorful : Level → string → string) w l lg s log isTerminal :
  loggers w !! l = Some lg →
  mu lg = false →
  Log_Logger log = l →
  ∃ w',
    SetTimeFormat l s w = Ok tt w'
    ∧ loggers w' !! l = Some (with_TimeFormat lg s)
    ∧ (∀ l', l' ≠ l → loggers w' !! l' = loggers w !! l')
    ∧ logHijacker (any:=any) time_Format colorful (ValueLog log) isTerminal w'
      = Ok (Some (Prefix lg
                  ++ list_byte_of_string
                       (spaced (GetTextForLevel colorful (Log_Level log) isTerminal)
                        ++ spaced (if decide (s = "") then ""
                                   else time_Format (Log_Time log) s)
                        ++ Log_Message log))%list) w'
    ∧ (s = "" →
       logHijacker (any:=any) time_Format colorful (ValueLog log) isTerminal w'
       = Ok (Some (Prefix lg
                   ++ list_byte_of_string
                        (spaced (GetTextForLevel colorful (Log_Level log) isTerminal)
                         ++ Log_Message log))%list) w').
Proof.
  intros Hl Hmu <-. eexists. split; [by apply SetTimeFormat_run|].
  split; [cbn; apply lookup_insert_eq|].
  split; [intros l' Hne; cbn; by rewrite lookup_insert_ne|].
  split.
  - erewrite logHijacker_run by (cbn; apply lookup_insert_eq). reflexivity.
  - intros ->. erewrite logHijacker_run by (cbn; apply lookup_insert_eq).
    reflexivity.
Qed.

(** X6.  [SetPrefix] returns its Logger and replaces the prefix: of two
    calls in a row the second wins, nothing else of the Logger changes, and a
    record of the Logger is then rendered with the bytes of the new prefix in
    front, with no separator added. *)
Theorem SetPrefix_renders {any} (time_Format : time_Time → string → string)
    (colorful : Level → string → string) w l lg s1 s2 log isTerminal :
  loggers w !! l = Some lg →
  mu lg = false →
  Log_Logger log = l →
  ∃ w1 w2,
    SetPrefix l s1 w = Ok l w1
    ∧ SetPrefix l s2 w1 = Ok l w2
    ∧ loggers w2 !! l = Some (with_Prefix lg (list_byte_of_string s2))
    ∧ (∀ l', l' ≠ l → loggers w2 !! l' = loggers w !! l')
    ∧ logHijacker (any:=any) time_Format colorful (ValueLog log) isTerminal w2
      = Ok (Some (list_byte_of_string s2
                  ++ list_byte_of_string
                       (spaced (GetTextForLevel colorful (Log_Level log) isTerminal)
                        ++ spaced (if decide (TimeFormat lg = "") then ""
                                   else time_Format (Log_Time log) (TimeFormat lg))
                        ++ Log_Message log))%list) w2.
Proof.
  intros Hl Hmu <-. eexists _, _. split; [by apply SetPrefix_run|].
  split; [apply SetPrefix_run; [cbn; apply lookup_insert_eq|done]|].
  split; [cbn; rewrite insert_insert_eq; apply lookup_insert_eq|].
  split; [intros l' Hne; cbn; by rewrite !lookup_insert_ne|].
  erewrite logHijacker_run
    by (cbn; rewrite insert_insert_eq; apply lookup_insert_eq).
  reflexivity.
Qed.

(** X7.  [SetLevel] sets the threshold to the level its name stands for and
    nothing else.  From then on a call of [print] is a no-op (no record
    acquired, no handler called, nothing printed) exactly when its level is
    above that threshold. *)
Theorem SetLevel_threshold (fromLevelName : string → Level) w l lg name :
  loggers w !! l = Some lg →
  mu lg = false →
  ∃ w',
    SetLevel fromLevelName l name w = Ok tt w'
    ∧ loggers w' !! l = Some (with_Level lg (fromLevelName name))
    ∧ (∀ l', l' ≠ l → loggers w' !! l' = loggers w !! l')
    ∧ (∀ level msg nl,
         print l level msg nl w' = Ok tt w' ↔ (fromLevelName name < level)%N).
Proof.
  intros Hl Hmu. eexists. split; [by apply SetLevel_run|]. cbn.
  split; [apply lookup_insert_eq|].
  split; [intros l' Hne; by rewrite lookup_insert_ne|].
  intros level msg nl.
  erewrite print_noop_iff by (cbn; apply lookup_insert_eq). reflexivity.
Qed.

(** ** Children *)

Lemma Child_run w l lg name :
  loggers w !! l = Some lg →
  Child l name w = getOrAdd (children lg) name l w.
Proof. intros Hl. unfold Child. run. by rewrite Hl. Qed.

(** The first request of the empty name: the clone is made, then the index
    panics. *)
Lemma getOrAdd_empty w m parent lgp lm :
  loggers w !! parent = Some lgp →
  loggerMaps w !! m = Some lm →
  loggerMap_mu lm = free_lock →
  Items lm !! "" = None →
  getOrAdd m "" parent w
  = Fail IndexOutOfRange
      (set_loggers <[fresh (dom (loggers w)) := cloned lgp (fresh (dom (loggerMaps w)))]>
         (set_loggerMaps
            <[fresh (dom (loggerMaps w)) := {| loggerMap_mu := free_lock; Items := ∅ |}]> w)).
Proof.
  intros Hp Hm Hfree Hnone. unfold getOrAdd.
  rewrite (registry_read w m lm "" _ Hm Hfree), Hnone.
  unfold bind at 1. rewrite (Clone_run w parent lgp Hp).
  unfold bind at 1. by rewrite child_prefix_empty.
Qed.

Lemma fresh_insert_ne {A} (ms : gmap loc A) (x : A) :
  fresh (dom (<[fresh (dom ms) := x]> ms)) ≠ fresh (dom ms).
Proof.
  intros He. pose proof (is_fresh (dom (<[fresh (dom ms) := x]> ms))) as Hf.
  rewrite He in Hf. apply Hf. rewrite dom_insert_L. set_solver.
Qed.

(** X8.  Once a child is stored under a name, asking for the name again
    returns the same Logger and changes nothing. *)
Theorem Child_again w l lg lm name :
  loggers w !! l = Some lg →
  loggerMaps w !! children lg = Some lm →
  loggerMap_mu lm = free_lock →
  Items lm !! name = None →
  name ≠ "" →
  ∃ c w1,
    Child l name w = Ok c w1
    ∧ c ≠ l
    ∧ Child l name w1 = Ok c w1.
Proof.
  intros Hl Hm Hfree Hnone Hne.
  destruct (last_byte_Some name Hne) as (ch & Hch).
  destruct (getOrAdd_miss w _ name l lg lm ch Hl Hm Hfree Hnone Hch)
    as (w1 & Hrun & Hls & Hms & _).
  pose proof (fresh_logger_ne w l lg Hl) as Hcl.
  exists (fresh (dom (loggers w))), w1.
  split; [by rewrite (Child_run w l lg)|]. split; [done|].
  assert (Hl1 : loggers w1 !! l = Some lg)
    by (rewrite Hls; by rewrite lookup_insert_ne).
  rewrite (Child_run w1 l lg _ Hl1).
  eapply getOrAdd_hit; [rewrite Hms; apply lookup_insert_eq|done|].
  cbn. apply lookup_insert_eq.
Qed.

(** X9.  Children asked for under different names are different Loggers;
    storing the second leaves the first as it was, in the registry and in the
    store. *)
Theorem Child_distinct_names w l lg lm a b :
  loggers w !! l = Some lg →
  loggerMaps w !! children lg = Some lm →
  loggerMap_mu lm = free_lock →
  Items lm !! a = None →
  Items lm !! b = None →
  a ≠ "" →
  b ≠ "" →
  a ≠ b →
  ∃ c1 w1 c2 w2 lm2,
    Child l a w = Ok c1 w1
    ∧ Child l b w1 = Ok c2 w2
    ∧ c1 ≠ c2
    ∧ loggerMaps w2 !! children lg = Some lm2
    ∧ Items lm2 = <[b := c2]> (<[a := c1]> (Items lm))
    ∧ loggers w2 !! c1 = loggers w1 !! c1
    ∧ Child l a w2 = Ok c1 w2.
Proof.
  intros Hl Hm Hfree Ha Hb Hane Hbne Hab.
  destruct (last_byte_Some a Hane) as (cha & Hcha).
  destruct (last_byte_Some b Hbne) as (chb & Hchb).
  destruct (getOrAdd_miss w _ a l lg lm cha Hl Hm Hfree Ha Hcha)
    as (w1 & Hrun1 & Hls1 & Hms1 & _).
  pose proof (fresh_logger_ne w l lg Hl) as Hcl.
  assert (Hl1 : loggers w1 !! l = Some lg)
    by (rewrite Hls1; by rewrite lookup_insert_ne).
  assert (Hm1 : loggerMaps w1 !! children lg
                = Some {| loggerMap_mu := free_lock;
                          Items := <[a := fresh (dom (loggers w))]> (Items lm) |})
    by (rewrite Hms1; apply lookup_insert_eq).
  destruct (getOrAdd_miss w1 _ b l lg _ chb Hl1 Hm1 eq_refl) as (w2 & Hrun2 & Hls2 & Hms2 & _);
    [cbn; by rewrite lookup_insert_ne|done|].
  assert (Hc : fresh (dom (loggers w1)) ≠ fresh (dom (loggers w)))
    by (rewrite Hls1; apply fresh_insert_ne).
  exists (fresh (dom (loggers w))), w1, (fresh (dom (loggers w1))), w2.
  eexists. split; [by rewrite (Child_run w l lg)|].
  split; [by rewrite (Child_run w1 l lg)|].
  split; [done|].
  split; [rewrite Hms2; apply lookup_insert_eq|].
  split; [done|].
  split; [rewrite Hls2; by rewrite lookup_insert_ne|].
  assert (Hl2 : loggers w2 !! l = Some lg).
  { rewrite Hls2, lookup_insert_ne; [done|].
    by eapply fresh_logger_ne. }
  rewrite (Child_run w2 l lg _ Hl2).
  eapply getOrAdd_hit; [rewrite Hms2; apply lookup_insert_eq|done|].
  cbn. rewrite lookup_insert_ne by done. apply lookup_insert_eq.
Qed.

(** X10.  A new child starts with the parent's Level, TimeFormat, Printer
    and handlers, with a free mutex and an empty pool of its own, and it is a
    copy: a TimeFormat or a prefix the parent is given afterwards does not
    reach the child, which the registry keeps returning. *)
Theorem Child_is_a_copy w l lg lm name :
  loggers w !! l = Some lg →
  loggerMaps w !! children lg = Some lm →
  loggerMap_mu lm = free_lock →
  Items lm !! name = None →
  name ≠ "" →
  mu lg = false →
  ∃ c w1 lc,
    Child l name w = Ok c w1
    ∧ loggers w1 !! c = Some lc
    ∧ loggers w1 !! l = Some lg
    ∧ Logger_Level lc = Logger_Level lg
    ∧ TimeFormat lc = TimeFormat lg
    ∧ Printer lc = Printer lg
    ∧ handlers lc = handlers lg
    ∧ mu lc = false
    ∧ logs lc = []
    ∧ (∀ tf, ∃ w2,
         SetTimeFormat l tf w1 = Ok tt w2
         ∧ loggers w2 !! c = Some lc
         ∧ Child l name w2 = Ok c w2)
    ∧ (∀ pre, ∃ w2,
         SetPrefix l pre w1 = Ok l w2
         ∧ loggers w2 !! c = Some lc
         ∧ Child l name w2 = Ok c w2).
Proof.
  intros Hl Hm Hfree Hnone Hne Hmu.
  destruct (last_byte_Some name Hne) as (ch & Hch).
  destruct (getOrAdd_miss w _ name l lg lm ch Hl Hm Hfree Hnone Hch)
    as (w1 & Hrun & Hls & Hms & _).
  pose proof (fresh_logger_ne w l lg Hl) as Hcl.
  assert (Hl1 : loggers w1 !! l = Some lg)
    by (rewrite Hls; by rewrite lookup_insert_ne).
  eexists _, w1, _. split; [by rewrite (Child_run w l lg)|].
  split; [rewrite Hls; apply lookup_insert_eq|].
  split; [done|]. do 6 (split; [done|]).
  split.
  - intros tf. eexists. split; [by apply SetTimeFormat_run|].
    split; [cbn; rewrite lookup_insert_ne by done; rewrite Hls; apply lookup_insert_eq|].
    erewrite Child_run by (cbn; apply lookup_insert_eq).
    eapply getOrAdd_hit; [cbn; rewrite Hms; apply lookup_insert_eq|done|].
    cbn. apply lookup_insert_eq.
  - intros pre. eexists. split; [by apply SetPrefix_run|].
    split; [cbn; rewrite lookup_insert_ne by done; rewrite Hls; apply lookup_insert_eq|].
    erewrite Child_run by (cbn; apply lookup_insert_eq).
    eapply getOrAdd_hit; [cbn; rewrite Hms; apply lookup_insert_eq|done|].
    cbn. apply lookup_insert_eq.
Qed.

(** X11.  A child has a registry of its own.  A child of the child is stored
    there and not in the parent's registry, and its prefix comes from its own
    name alone: the names of its ancestors are not part of it. *)
Theorem Child_of_child w l lg lm a b :
  loggers w !! l = Some lg →
  loggerMaps w !! children lg = Some lm →
  loggerMap_mu lm = free_lock →
  Items lm !! a = None →
  a ≠ "" →
  b ≠ "" →
  ∃ c w1 g w2 lc lgg lm2 lmc,
    Child l a w = Ok c w1
    ∧ Child c b w1 = Ok g w2
    ∧ g ≠ c ∧ g ≠ l
    ∧ loggers w2 !! c = Some lc
    ∧ children lc ≠ children lg
    ∧ loggerMaps w2 !! children lg = Some lm2
    ∧ Items lm2 = <[a := c]> (Items lm)
    ∧ loggerMaps w2 !! children lc = Some lmc
    ∧ Items lmc = {[ b := g ]}
    ∧ loggers w2 !! g = Some lgg
    ∧ Prefix lgg
      = list_byte_of_string
          (if decide (last_byte b = Some " "%char) then b else b ++ ": ").
Proof.
  intros Hl Hm Hfree Ha Hane Hbne.
  destruct (last_byte_Some a Hane) as (cha & Hcha).
  destruct (last_byte_Some b Hbne) as (chb & Hchb).
  destruct (getOrAdd_miss w _ a l lg lm cha Hl Hm Hfree Ha Hcha)
    as (w1 & Hrun1 & Hls1 & Hms1 & _).
  pose proof (fresh_logger_ne w l lg Hl) as Hcl.
  pose proof (fresh_loggerMap_ne w _ lm Hm) as Hmm.
  set (c := fresh (dom (loggers w))) in *.
  set (mc := fresh (dom (loggerMaps w))) in *.
  set (lc := with_Prefix (cloned lg mc)
               (list_byte_of_string (if decide (cha = " "%char) then a else a ++ ": "))) in *.
  assert (Hc1 : loggers w1 !! c = Some lc) by (rewrite Hls1; apply lookup_insert_eq).
  assert (Hmc1 : loggerMaps w1 !! children lc
                 = Some {| loggerMap_mu := free_lock; Items := ∅ |}).
  { rewrite Hms1. cbn. rewrite lookup_insert_ne by done. apply lookup_insert_eq. }
  destruct (getOrAdd_miss w1 _ b c lc _ chb Hc1 Hmc1 eq_refl (lookup_empty _) Hchb)
    as (w2 & Hrun2 & Hls2 & Hms2 & _).
  assert (Hg : fresh (dom (loggers w1)) ≠ c)
    by (rewrite Hls1; apply fresh_insert_ne).
  assert (Hgl : fresh (dom (loggers w1)) ≠ l).
  { eapply fresh_logger_ne. rewrite Hls1. by rewrite lookup_insert_ne. }
  exists c, w1, (fresh (dom (loggers w1))), w2, lc.
  eexists _, _, _. split; [by rewrite (Child_run w l lg)|].
  split; [by rewrite (Child_run w1 c lc)|].
  split; [done|]. split; [done|].
  split; [rewrite Hls2; by rewrite lookup_insert_ne|].
  split; [done|].
  split.
  { rewrite Hms2. cbn. rewrite lookup_insert_ne by done.
    rewrite lookup_insert_ne.
    - rewrite Hms1. apply lookup_insert_eq.
    - intros He. pose proof (fresh_loggerMap w1) as Hf. rewrite He, Hms1 in Hf.
      by rewrite lookup_insert_eq in Hf. }
  split; [done|].
  split; [rewrite Hms2; apply lookup_insert_eq|].
  split; [cbn; by rewrite insert_empty|].
  split; [rewrite Hls2; apply lookup_insert_eq|].
  cbn. rewrite Hchb.
  destruct (decide (chb = " "%char)) as [->|Hc], (decide (Some _ = Some _));
    try done; congruence.
Qed.

(** X12.  A record of a new child is rendered with the child's prefix in
    front (the name, followed by ": " unless its last byte is a space) and
    with the parent's time format. *)
Theorem Child_renders {any} (time_Format : time_Time → string → string)
    (colorful : Level → string → string) w l lg lm name isTerminal :
  loggers w !! l = Some lg →
  loggerMaps w !! children lg = Some lm →
  loggerMap_mu lm = free_lock →
  Items lm !! name = None →
  name ≠ "" →
  ∃ c w1,
    Child l name w = Ok c w1
    ∧ ∀ log,
        Log_Logger log = c →
        logHijacker (any:=any) time_Format colorful (ValueLog log) isTerminal w1
        = Ok (Some (list_byte_of_string
                      (if decide (last_byte name = Some " "%char) then name
                       else name ++ ": ")
                    ++ list_byte_of_string
                         (spaced (GetTextForLevel colorful (Log_Level log) isTerminal)
                          ++ spaced (if decide (TimeFormat lg = "") then ""
                                     else time_Format (Log_Time log) (TimeFormat lg))
                          ++ Log_Message log))%list) w1.
Proof.
  intros Hl Hm Hfree Hnone Hne.
  destruct (last_byte_Some name Hne) as (ch & Hch).
  destruct (getOrAdd_miss w _ name l lg lm ch Hl Hm Hfree Hnone Hch)
    as (w1 & Hrun & Hls & Hms & _).
  eexists _, w1. split; [by rewrite (Child_run w l lg)|].
  intros log Hlog.
  erewrite logHijacker_run by (rewrite Hlog, Hls; apply lookup_insert_eq).
  cbn. rewrite Hch.
  destruct (decide (ch = " "%char)) as [->|Hc], (decide (Some _ = Some _));
    try done; congruence.
Qed.

(** X13.  [getOrAdd] never leaves the registry locked: whether it returns a
    stored child, stores a new one, or panics on the empty name, the lock is
    free afterwards, and the registry holds what it held before plus, at most,
    the new child under the requested name. *)
Theorem getOrAdd_releases_lock w m name parent lgp lm :
  loggers w !! parent = Some lgp →
  loggerMaps w !! m = Some lm →
  loggerMap_mu lm = free_lock →
  ∃ lm',
    loggerMaps (world_of (getOrAdd m name parent w)) !! m = Some lm'
    ∧ loggerMap_mu lm' = free_lock
    ∧ (Items lm' = Items lm
       ∨ ∃ c, getOrAdd m name parent w = Ok c (world_of (getOrAdd m name parent w))
              ∧ Items lm !! name = None
              ∧ Items lm' = <[name := c]> (Items lm)).
Proof.
  intros Hp Hm Hfree.
  destruct (Items lm !! name) as [c|] eqn:Hn.
  - rewrite (getOrAdd_hit w m name parent lm c Hm Hfree Hn). cbn.
    exists lm. split; [done|]. split; [done|]. by left.
  - destruct (decide (name = "")) as [->|Hne].
    + rewrite (getOrAdd_empty w m parent lgp lm Hp Hm Hfree Hn). cbn.
      exists lm. split; [|split; [done|by left]].
      rewrite lookup_insert_ne; [done|]. by eapply fresh_loggerMap_ne.
    + destruct (last_byte_Some name Hne) as (ch & Hch).
      destruct (getOrAdd_miss w m name parent lgp lm ch Hp Hm Hfree Hn Hch)
        as (w1 & Hrun & Hls & Hms & _).
      rewrite Hrun. cbn. eexists. split; [rewrite Hms; apply lookup_insert_eq|].
      split; [done|]. right. eexists. by split.
Qed.

(** ** One call of [print], and the marshaler of [Scan] *)

(** X14.  A call of [print] that passes the filter takes a record from the
    pool first and gives it the level, the message and the newline flag of
    the call; then it calls the handlers of the chain in order from the
    first, the first with that record and each next one with the record as
    the handler before left it, until one answers true; if none does, all
    were called and the printer is called once, with the record as the last
    handler left it; if one does, it is the last one called and the printer
    is not called; the record is put back last.  Handlers that leave the
    record alone are all called with the record as it was acquired, and that
    is the record printed and put back. *)
Theorem print_order {V} (w : World (Log * V)) l lg level msg nl :
  loggers w !! l = Some lg →
  (level ≤ Logger_Level lg)%N →
  ∃ got (h : bool) (o' : Log * V) (rs : list Log),
    let log := acquired l got (clock w) level msg nl in
    call_events w (print_by l level msg nl w)
    = ([PoolGet l got] ++ handler_calls_with 0 rs
       ++ (if h then [] else [sink_op (Printer lg) nl o'.1])
       ++ [PoolPut l o'.1])%list
    ∧ Log_Level log = level
    ∧ Log_Message log = msg
    ∧ Log_NewLine log = nl
    ∧ Ran (chain_of w l) (log, (outside w).2) h o' rs
    ∧ (length rs ≤ length (chain_of w l))%nat
    ∧ (h = false → length rs = length (chain_of w l))
    ∧ (h = true → (0 < length rs)%nat)
    ∧ (∀ r, head rs = Some r → r = log)
    ∧ (Forall reads_only (chain_of w l) →
       rs = replicate (length rs) log ∧ o'.1 = log).
Proof.
  intros Hl Hle.
  destruct (print_by_pass w l lg level msg nl Hl Hle)
    as (got & q & h & o' & rs & _ & Hran & Hp).
  cbn zeta in *. exists got, h, o', rs. cbn zeta.
  split; [rewrite Hp; apply call_events_advance|].
  do 3 (split; [done|]).
  unfold chain_of. rewrite Hl.
  split; [exact Hran|].
  destruct (Ran_length _ _ _ _ _ Hran) as (Hlen & Hf & Ht & Hhd).
  do 4 (split; [done|]).
  intros Hall. exact (Ran_reads_only _ _ _ _ _ Hall Hran).
Qed.


Lemma Scan_marshaler_run {any} (time_Format : time_Time → string → string)
    w l lg (v : ScanValue (any:=any)) :
  loggers w !! l = Some lg →
  Scan_marshaler time_Format l v w
  = Ok (match (match v with
               | ScanBytes b => b
               | ScanString s => list_byte_of_string s
               | ScanOther _ => []
               end) with
        | [] => None
        | line =>
            Some (list_byte_of_string (spaced (time_Format (clock w) (TimeFormat lg)))
                  ++ line)%list
        end) w.
Proof.
  intros Hl. unfold Scan_marshaler.
  destruct (match v with
            | ScanBytes b => b
            | ScanString s => list_byte_of_string s
            | ScanOther _ => []
            end) as [|x line]; [done|].
  cbn. run. destruct (decide (S (length line) = 0)) as [|_]; [done|].
  rewrite Hl. cbn. unfold spaced.
  destruct (decide (time_Format (clock w) (TimeFormat lg) ≠ "")),
    (decide (time_Format (clock w) (TimeFormat lg) = "")); try done.
Qed.

(** X16.  The marshaler [Scan] installs declines an empty input and a value
    that is neither bytes nor a string.  Any other input comes back with the
    current time in front, in the Logger's TimeFormat and followed by one
    space, or unchanged when that time text is empty.  The TimeFormat is read
    at each call (a later [SetTimeFormat] applies), and the Logger's prefix is
    never part of the output. *)
Theorem Scan_marshaler_output {any} (time_Format : time_Time → string → string)
    w l lg (v : ScanValue (any:=any)) :
  loggers w !! l = Some lg →
  mu lg = false →
  let line := match v with
              | ScanBytes b => b
              | ScanString s => list_byte_of_string s
              | ScanOther _ => []
              end in
  let out (tf : string) :=
    match line with
    | [] => None
    | _ => Some (list_byte_of_string (spaced (time_Format (clock w) tf)) ++ line)%list
    end in
  Scan_marshaler time_Format l v w = Ok (out (TimeFormat lg)) w
  ∧ (line = [] → Scan_marshaler time_Format l v w = Ok None w)
  ∧ (line ≠ [] → time_Format (clock w) (TimeFormat lg) = "" →
     Scan_marshaler time_Format l v w = Ok (Some line) w)
  ∧ (∀ tf, ∃ w1,
       SetTimeFormat l tf w = Ok tt w1
       ∧ Scan_marshaler time_Format l v w1 = Ok (out tf) w1)
  ∧ (∀ pre, ∃ w1,
       SetPrefix l pre w = Ok l w1
       ∧ Scan_marshaler time_Format l v w1 = Ok (out (TimeFormat lg)) w1).
Proof.
  intros Hl Hmu line out.
  assert (H0 : Scan_marshaler time_Format l v w = Ok (out (TimeFormat lg)) w).
  { rewrite (Scan_marshaler_run time_Format w l lg v Hl). subst out line.
    by destruct (match v with ScanBytes b => b | ScanString s => _ | ScanOther _ => _ end). }
  split; [done|]. split; [|split; [|split]].
  - intros He. rewrite H0. subst out. cbn. by rewrite He.
  - intros Hne Ht. rewrite H0. subst out. cbn. rewrite Ht.
    by destruct line.
  - intros tf. eexists. split; [by apply SetTimeFormat_run|].
    erewrite Scan_marshaler_run by (cbn; apply lookup_insert_eq).
    subst out line. cbn.
    by destruct (match v with ScanBytes b => b | ScanString s => _ | ScanOther _ => _ end).
  - intros pre. eexists. split; [by apply SetPrefix_run|].
    erewrite Scan_marshaler_run by (cbn; apply lookup_insert_eq).
    subst out line. cbn.
    by destruct (match v with ScanBytes b => b | ScanString s => _ | ScanOther _ => _ end).
Qed.

End Further.

(** * Further properties: goroutines in [getOrAdd] *)

Section Goroutines.

Context {W : Type}.
Implicit Types (w : World W) (m : loc) (lg : Logger) (g : Goroutine)
  (gs : list Goroutine) (pc : getOrAdd_pc).






End Goroutines.

(** * The further statements at concrete inputs *)


(** With room in the array, the clone's handler replaces the one the parent
    registered after the clone. *)
Lemma Handle_after_Clone_shares_array_witness :
  let w := roomy_scene in
  ∃ lg,
    (loggers w !! 1%positive = Some lg
     ∧ mu lg = false
     ∧ slice_backed w (handlers lg)
     ∧ (slice_len (handlers lg) < slice_cap (handlers lg))%nat)
    ∧ ∃ c w1 w2 w3,
        Clone 1%positive w = Ok c w1
        ∧ Handle doubling 1%positive accepting w1 = Ok tt w2
        ∧ Handle doubling c auditing w2 = Ok tt w3
        ∧ chain_of w2 1%positive = [declining; accepting]
        ∧ chain_of w3 1%positive = [declining; auditing].
Proof.
  cbv zeta. eexists.
  assert (Hb : slice_backed roomy_scene
                 {| slice_array := 1%positive; slice_len := 1; slice_cap := 4 |})
    by (unfold slice_backed; vm_compute; lia).
  assert (Hr : (1 < 4)%nat) by lia.
  split; [split; [reflexivity|split; [reflexivity|split; [exact Hb|exact Hr]]]|].
  destruct (Handle_after_Clone_shares_array doubling roomy_scene 1%positive _
              accepting auditing eq_refl eq_refl Hb Hr)
    as (c & w1 & w2 & w3 & H1 & H2 & H3 & _ & H5 & _ & H7).
  exists c, w1, w2, w3. split; [exact H1|]. split; [exact H2|]. split; [exact H5|].
  split; [rewrite H3; reflexivity|rewrite H7; reflexivity].
Defined.

(** With a full array, the parent and the clone keep their own handlers. *)
Lemma Handle_after_Clone_full_independent_witness :
  let w := scene InfoLevel "" [declining] [] [] in
  (loggers w !! 1%positive = Some (svc 1 InfoLevel "" [])
   ∧ slice_backed w (handlers (svc 1 InfoLevel "" []))
   ∧ ¬ (1 < 1)%nat)
  ∧ ∃ c w1 w2 w3,
      Clone 1%positive w = Ok c w1
      ∧ Handle doubling 1%positive accepting w1 = Ok tt w2
      ∧ Handle doubling c auditing w2 = Ok tt w3
      ∧ chain_of w3 1%positive = [declining; accepting]
      ∧ chain_of w3 c = [declining; auditing].
Proof.
  cbv zeta.
  assert (Hb : slice_backed (scene InfoLevel "" [declining] [] [])
                 (handlers (svc 1 InfoLevel "" [])))
    by (unfold slice_backed; vm_compute; lia).
  assert (Hf : ¬ (1 < 1)%nat) by lia.
  split; [by repeat split|].
  destruct (Handle_after_Clone_full_independent doubling
              (scene InfoLevel "" [declining] [] []) 1%positive
              (svc 1 InfoLevel "" []) accepting auditing eq_refl eq_refl Hb Hf)
    as (c & w1 & w2 & w3 & H1 & H2 & _ & _ & H5 & H6 & H7).
  exists c, w1, w2, w3. split; [exact H1|]. split; [exact H2|]. split; [exact H5|].
  split; [rewrite H7; reflexivity|rewrite H6; reflexivity].
Defined.

(** No timestamp after [SetTimeFormat("")]. *)
Lemma SetTimeFormat_renders_witness :
  let w := scene InfoLevel "2006" [] [] [] in
  (loggers w !! 1%positive = Some (svc 0 InfoLevel "2006" [])
   ∧ Log_Logger (info_record "ready") = 1%positive)
  ∧ ∃ w',
      SetTimeFormat 1%positive "" w = Ok tt w'
      ∧ logHijacker (any:=unit) (λ _ f, f) (λ _ tag, tag)
          (ValueLog (info_record "ready")) false w'
        = Ok (Some (list_byte_of_string "svc: INFO ready")) w'.
Proof.
  cbv zeta. split; [by split|].
  destruct (SetTimeFormat_renders (any:=unit) (λ _ f, f) (λ _ tag, tag)
              (scene InfoLevel "2006" [] [] []) 1%positive
              (svc 0 InfoLevel "2006" []) "" (info_record "ready") false
              eq_refl eq_refl eq_refl)
    as (w' & Hrun & _ & _ & _ & Hempty).
  exists w'. split; [exact Hrun|]. exact (Hempty eq_refl).
Defined.

(** The second of two prefixes is the one rendered. *)
Lemma SetPrefix_renders_witness :
  let w := scene InfoLevel "" [] [] [] in
  (loggers w !! 1%positive = Some (svc 0 InfoLevel "" [])
   ∧ Log_Logger (info_record "ready") = 1%positive)
  ∧ ∃ w1 w2,
      SetPrefix 1%positive "api: " w = Ok 1%positive w1
      ∧ SetPrefix 1%positive "db> " w1 = Ok 1%positive w2
      ∧ logHijacker (any:=unit) (λ _ f, f) (λ _ tag, tag)
          (ValueLog (info_record "ready")) false w2
        = Ok (Some (list_byte_of_string "db> INFO ready")) w2.
Proof.
  cbv zeta. split; [by split|].
  destruct (SetPrefix_renders (any:=unit) (λ _ f, f) (λ _ tag, tag)
              (scene InfoLevel "" [] [] []) 1%positive
              (svc 0 InfoLevel "" []) "api: " "db> " (info_record "ready") false
              eq_refl eq_refl eq_refl)
    as (w1 & w2 & H1 & H2 & _ & _ & H5).
  exists w1, w2. split; [exact H1|]. split; [exact H2|exact H5].
Defined.

(** After [SetLevel("error")] a call at Warn is a no-op and a call at Error
    is not. *)
Lemma SetLevel_threshold_witness :
  let w := scene InfoLevel "" [] [] [] in
  loggers w !! 1%positive = Some (svc 0 InfoLevel "" [])
  ∧ ∃ w',
      SetLevel level_of_name 1%positive "error" w = Ok tt w'
      ∧ print 1%positive WarnLevel "slow" true w' = Ok tt w'
      ∧ print 1%positive ErrorLevel "down" true w' ≠ Ok tt w'.
Proof.
  cbv zeta. split; [reflexivity|].
  destruct (SetLevel_threshold level_of_name (scene InfoLevel "" [] [] []) 1%positive
              (svc 0 InfoLevel "" []) "error" eq_refl eq_refl)
    as (w' & Hrun & _ & _ & Hiff).
  exists w'. split; [exact Hrun|]. split.
  - apply Hiff. vm_compute. reflexivity.
  - intros Hp. apply Hiff in Hp. vm_compute in Hp. discriminate.
Defined.

(** The child "db" of the logger at 1, asked for twice. *)
Lemma Child_again_witness :
  let w := scene InfoLevel "" [] [] [] in
  (loggers w !! 1%positive = Some (svc 0 InfoLevel "" [])
   ∧ loggerMaps w !! 1%positive = Some {| loggerMap_mu := free_lock; Items := ∅ |}
   ∧ "db" ≠ "")
  ∧ ∃ c w1,
      Child 1%positive "db" w = Ok c w1
      ∧ Child 1%positive "db" w1 = Ok c w1.
Proof.
  cbv zeta. assert (Hne : "db" ≠ "") by discriminate.
  split; [by repeat split|].
  destruct (Child_again (scene InfoLevel "" [] [] []) 1%positive
              (svc 0 InfoLevel "" []) {| loggerMap_mu := free_lock; Items := ∅ |} "db"
              eq_refl eq_refl eq_refl eq_refl Hne)
    as (c & w1 & H1 & _ & H2).
  exists c, w1. by split.
Defined.

(** The children "db" and "api" of the logger at 1. *)
Lemma Child_distinct_names_witness :
  let w := scene InfoLevel "" [] [] [] in
  (loggers w !! 1%positive = Some (svc 0 InfoLevel "" [])
   ∧ loggerMaps w !! 1%positive = Some {| loggerMap_mu := free_lock; Items := ∅ |}
   ∧ "db" ≠ "" ∧ "api" ≠ "" ∧ "db" ≠ "api")
  ∧ ∃ c1 w1 c2 w2,
      Child 1%positive "db" w = Ok c1 w1
      ∧ Child 1%positive "api" w1 = Ok c2 w2
      ∧ c1 ≠ c2
      ∧ Child 1%positive "db" w2 = Ok c1 w2.
Proof.
  cbv zeta.
  assert (H1 : "db" ≠ "") by discriminate.
  assert (H2 : "api" ≠ "") by discriminate.
  assert (H3 : "db" ≠ "api") by discriminate.
  split; [by repeat split|].
  destruct (Child_distinct_names (scene InfoLevel "" [] [] []) 1%positive
              (svc 0 InfoLevel "" []) {| loggerMap_mu := free_lock; Items := ∅ |}
              "db" "api" eq_refl eq_refl eq_refl eq_refl eq_refl H1 H2 H3)
    as (c1 & w1 & c2 & w2 & lm2 & Ha & Hb & Hne & _ & _ & _ & Hagain).
  exists c1, w1, c2, w2. by repeat split.
Defined.

(** The child "db" keeps the time format it was created with. *)
Lemma Child_is_a_copy_witness :
  let w := scene InfoLevel "2006" [declining] [stale] [] in
  (loggers w !! 1%positive = Some (svc 1 InfoLevel "2006" [stale])
   ∧ loggerMaps w !! 1%positive = Some {| loggerMap_mu := free_lock; Items := ∅ |}
   ∧ "db" ≠ "")
  ∧ ∃ c w1 w2 lc,
      Child 1%positive "db" w = Ok c w1
      ∧ loggers w1 !! c = Some lc
      ∧ TimeFormat lc = "2006"
      ∧ logs lc = []
      ∧ SetTimeFormat 1%positive "15:04" w1 = Ok tt w2
      ∧ loggers w2 !! c = Some lc.
Proof.
  cbv zeta. assert (Hne : "db" ≠ "") by discriminate.
  split; [by repeat split|].
  destruct (Child_is_a_copy (scene InfoLevel "2006" [declining] [stale] []) 1%positive
              (svc 1 InfoLevel "2006" [stale])
              {| loggerMap_mu := free_lock; Items := ∅ |} "db"
              eq_refl eq_refl eq_refl eq_refl Hne eq_refl)
    as (c & w1 & lc & Hrun & Hc & _ & _ & Htf & _ & _ & _ & Hlogs & Hset & _).
  destruct (Hset "15:04") as (w2 & Hs & Hc2 & _).
  exists c, w1, w2, lc. by repeat split.
Defined.

(** The child "db" and its child "pool". *)
Lemma Child_of_child_witness :
  let w := scene InfoLevel "" [] [] [] in
  (loggers w !! 1%positive = Some (svc 0 InfoLevel "" [])
   ∧ loggerMaps w !! 1%positive = Some {| loggerMap_mu := free_lock; Items := ∅ |}
   ∧ "db" ≠ "" ∧ "pool" ≠ "")
  ∧ ∃ c w1 g w2 lgg lm2,
      Child 1%positive "db" w = Ok c w1
      ∧ Child c "pool" w1 = Ok g w2
      ∧ loggers w2 !! g = Some lgg
      ∧ Prefix lgg = list_byte_of_string "pool: "
      ∧ loggerMaps w2 !! 1%positive = Some lm2
      ∧ Items lm2 !! "pool" = None.
Proof.
  cbv zeta.
  assert (H1 : "db" ≠ "") by discriminate.
  assert (H2 : "pool" ≠ "") by discriminate.
  split; [by repeat split|].
  destruct (Child_of_child (scene InfoLevel "" [] [] []) 1%positive
              (svc 0 InfoLevel "" []) {| loggerMap_mu := free_lock; Items := ∅ |}
              "db" "pool" eq_refl eq_refl eq_refl eq_refl H1 H2)
    as (c & w1 & g & w2 & lc & lgg & lm2 & lmc & Ha & Hb & _ & _ & _ & _
        & Hm2 & Hi2 & _ & _ & Hg & Hpre).
  exists c, w1, g, w2, lgg, lm2.
  split; [exact Ha|]. split; [exact Hb|]. split; [exact Hg|].
  split; [exact Hpre|]. split; [exact Hm2|]. rewrite Hi2. reflexivity.
Defined.

(** A line of the child "db". *)
Lemma Child_renders_witness :
  let w := scene InfoLevel "" [] [] [] in
  (loggers w !! 1%positive = Some (svc 0 InfoLevel "" [])
   ∧ loggerMaps w !! 1%positive = Some {| loggerMap_mu := free_lock; Items := ∅ |}
   ∧ "db" ≠ "")
  ∧ ∃ c w1,
      Child 1%positive "db" w = Ok c w1
      ∧ logHijacker (any:=unit) (λ _ f, f) (λ _ tag, tag)
          (ValueLog (acquired c None 0%Z InfoLevel "ready" true)) false w1
        = Ok (Some (list_byte_of_string "db: INFO ready")) w1.
Proof.
  cbv zeta. assert (Hne : "db" ≠ "") by discriminate.
  split; [by repeat split|].
  destruct (Child_renders (any:=unit) (λ _ f, f) (λ _ tag, tag)
              (scene InfoLevel "" [] [] []) 1%positive
              (svc 0 InfoLevel "" []) {| loggerMap_mu := free_lock; Items := ∅ |}
              "db" false eq_refl eq_refl eq_refl eq_refl Hne)
    as (c & w1 & Hrun & Hline).
  exists c, w1. split; [exact Hrun|].
  rewrite (Hline (acquired c None 0%Z InfoLevel "ready" true) eq_refl).
  reflexivity.
Defined.

(** The lock of the registry after the panic on the empty name. *)
Lemma getOrAdd_releases_lock_witness :
  let w := scene InfoLevel "" [] [] [] in
  (loggers w !! 1%positive = Some (svc 0 InfoLevel "" [])
   ∧ loggerMaps w !! 1%positive = Some {| loggerMap_mu := free_lock; Items := ∅ |})
  ∧ ∃ lm',
      loggerMaps (world_of (getOrAdd 1%positive "" 1%positive w)) !! 1%positive = Some lm'
      ∧ loggerMap_mu lm' = free_lock.
Proof.
  cbv zeta. split; [by split|].
  destruct (getOrAdd_releases_lock (scene InfoLevel "" [] [] []) 1%positive ""
              1%positive (svc 0 InfoLevel "" [])
              {| loggerMap_mu := free_lock; Items := ∅ |} eq_refl eq_refl eq_refl)
    as (lm' & H1 & H2 & _).
  exists lm'. by split.
Defined.

(** A call at Error with a record from the pool and two handlers that write
    to it and decline. *)
Lemma print_order_witness :
  let w := scene_by InfoLevel [marking; clearing] [stale] [Some 0%nat] in
  let line (msg : string) nl :=
    {| Log_Logger := 1%positive; Log_Time := 1700000000%Z; Log_Level := ErrorLevel;
       Log_Message := msg; Log_NewLine := nl |} in
  let w2 := scene_by InfoLevel [reading declining; reading auditing] [stale] [Some 0%nat] in
  (loggers w !! 1%positive = Some (svc 2 InfoLevel "" [stale])
   ∧ loggers w2 !! 1%positive = Some (svc 2 InfoLevel "" [stale])
   ∧ (ErrorLevel ≤ InfoLevel)%N
   ∧ Forall reads_only (chain_of w2 1%positive))
  ∧ call_events w (print_by 1%positive ErrorLevel "down" true w)
    = [PoolGet 1%positive (Some stale);
       HandlerCall 0 (line "down" true);
       HandlerCall 1 (line "! down" true);
       PrinterPrintln 7%positive (line "! down" false);
       PoolPut 1%positive (line "! down" false)]
  ∧ ∃ got n,
      call_events w2 (print_by 1%positive ErrorLevel "down" true w2)
      = ([PoolGet 1%positive got]
         ++ handler_calls_with 0
              (replicate n (acquired 1%positive got (clock w2) ErrorLevel "down" true))
         ++ [PrinterPrintln 7%positive
               (acquired 1%positive got (clock w2) ErrorLevel "down" true);
             PoolPut 1%positive
               (acquired 1%positive got (clock w2) ErrorLevel "down" true)])%list
      ∧ n = 2%nat.
Proof.
  cbv zeta.
  assert (Hle : (ErrorLevel ≤ InfoLevel)%N) by (vm_compute; discriminate).
  assert (Hall : Forall reads_only
                   (chain_of (scene_by InfoLevel [reading declining; reading auditing]
                                [stale] [Some 0%nat]) 1%positive)).
  { change (Forall reads_only [reading declining; reading auditing]).
    repeat constructor. }
  split; [by repeat split|]. split; cycle 1.
  { destruct (print_order (scene_by InfoLevel [reading declining; reading auditing]
                             [stale] [Some 0%nat])
                1%positive (svc 2 InfoLevel "" [stale]) ErrorLevel "down" true eq_refl Hle)
      as (got & h & o' & rs & Hev & _ & _ & _ & Hran & _ & Hf & _ & _ & Hro).
    cbv zeta in Hev, Hro, Hf. destruct (Hro Hall) as (Hrs & Ho).
    exists got, (length rs). rewrite Hev, Ho, <- Hrs.
    assert (Hh : h = false).
    { apply Ran_run_chain in Hran. vm_compute in Hran. by injection Hran as <- _ _. }
    subst h. split; [done|]. by rewrite (Hf eq_refl). }
  destruct (print_order (scene_by InfoLevel [marking; clearing] [stale] [Some 0%nat])
              1%positive (svc 2 InfoLevel "" [stale]) ErrorLevel "down" true eq_refl Hle)
    as (got & h & o' & rs & Hev & _ & _ & _ & Hran & _).
  cbv zeta in Hev.
  assert (Hgot : got = Some stale); [|subst got].
  { assert (Hhd : head (call_events
                          (scene_by InfoLevel [marking; clearing] [stale] [Some 0%nat])
                          (print_by 1%positive ErrorLevel "down" true
                             (scene_by InfoLevel [marking; clearing] [stale] [Some 0%nat])))
                  = Some (PoolGet 1%positive (Some stale)))
      by (vm_compute; reflexivity).
    rewrite Hev in Hhd. cbn in Hhd. by injection Hhd. }
  rewrite Hev.
  apply Ran_run_chain in Hran. vm_compute in Hran. injection Hran as <- <- <-.
  reflexivity.
Defined.


(** A scanned line with and without a time format, and an empty input. *)
Lemma Scan_marshaler_output_witness :
  let w := scene InfoLevel "" [] [] [] in
  (loggers w !! 1%positive = Some (svc 0 InfoLevel "" [])
   ∧ mu (svc 0 InfoLevel "" []) = false)
  ∧ Scan_marshaler (any:=unit) (λ _ f, f) 1%positive (ScanString "") w = Ok None w
  ∧ Scan_marshaler (any:=unit) (λ _ f, f) 1%positive (ScanString "up") w
    = Ok (Some (list_byte_of_string "up")) w
  ∧ ∃ w1,
      SetTimeFormat 1%positive "15:04" w = Ok tt w1
      ∧ Scan_marshaler (any:=unit) (λ _ f, f) 1%positive (ScanString "up") w1
        = Ok (Some (list_byte_of_string "15:04 up")) w1.
Proof.
  cbv zeta. split; [by split|].
  split; [|split].
  - destruct (Scan_marshaler_output (any:=unit) (λ _ f, f) (scene InfoLevel "" [] [] [])
                1%positive (svc 0 InfoLevel "" []) (ScanString "") eq_refl eq_refl)
      as (_ & Hempty & _).
    exact (Hempty eq_refl).
  - destruct (Scan_marshaler_output (any:=unit) (λ _ f, f) (scene InfoLevel "" [] [] [])
                1%positive (svc 0 InfoLevel "" []) (ScanString "up") eq_refl eq_refl)
      as (_ & _ & Hplain & _).
    apply Hplain; [discriminate|reflexivity].
  - destruct (Scan_marshaler_output (any:=unit) (λ _ f, f) (scene InfoLevel "" [] [] [])
                1%positive (svc 0 InfoLevel "" []) (ScanString "up") eq_refl eq_refl)
      as (_ & _ & _ & Hset & _).
    destruct (Hset "15:04") as (w1 & H1 & H2).
    exists w1. split; [exact H1|]. rewrite H2. reflexivity.
Defined.

